(** * Spiral: counter-clockwise spiral traversal and bordered-grid parsing

    A shallow embedding of [src/spir.py]: [SpiralTraverser.traverse] and
    [MatrixParser.parse_matrix].  Python integers are modelled by [Z],
    Python lists by [list], Python strings by [string] (code points
    0..255; the bordered-grid format itself is plain ASCII), and a raised
    exception by the left summand of [outcome]. *)

From Stdlib Require Import Ascii String.
From Stdlib Require Import ZArith List Lia Bool Permutation Arith.
From Equations Require Import Equations.
Import ListNotations.

Set Default Goal Selector "!".

(** ** Exceptions and the error monad *)

(** The [ValueError]s of the parser differ only by their message; the
    constructor arguments are exactly the values interpolated into it. *)
Inductive exn : Type :=
| IndexError
    (* list index out of range *)
| InvalidLiteral (shown : string)
    (* ValueError of int(): invalid literal for int() with base 10: <shown>,
       where <shown> is the repr of the argument cut to 200 characters *)
| TooManyDigits (limit : nat) (digits : nat)
    (* ValueError of int(): exceeds the limit (<limit> digits) for integer
       string conversion: value has <digits> digits *)
| NotSquare (n : nat) (cols : nat).
    (* ValueError of parse_matrix: expected <n>x<n>, got <cols> columns *)

Definition outcome (A : Type) : Type := (exn + A)%type.

Abbreviation Ok := (@inr exn _).
Abbreviation Raise := (@inl exn _).

Definition bind {A B} (c : outcome A) (k : A -> outcome B) : outcome B :=
  match c with
  | inr a => k a
  | inl e => inl e
  end.

Declare Scope py_scope.
Delimit Scope py_scope with py.
Notation "x <- c ;; k" := (bind c (fun x => k))
  (at level 61, c at next level, right associativity) : py_scope.
Notation "' pat <- c ;; k" := (bind c (fun x => match x with pat => k end))
  (at level 61, pat pattern, c at next level, right associativity) : py_scope.

Local Open Scope Z_scope.
Local Open Scope py_scope.

Fixpoint mapM {A B} (f : A -> outcome B) (l : list A) : outcome (list B) :=
  match l with
  | [] => Ok []
  | a :: l' => b <- f a ;; bs <- mapM f l' ;; Ok (b :: bs)
  end.

(** Case analysis that keeps the equation (for termination proofs). *)
Definition inspect {B : Type} (b : B) : {b' : B | b = b'} :=
  exist _ b eq_refl.

(** ** Python built-ins *)

Module Py.

(** [l[i]]: a negative index counts from the end; anything outside
    [-len(l) .. len(l)-1] raises [IndexError]. *)
Definition index {A} (l : list A) (i : Z) : outcome A :=
  let len := Z.of_nat (length l) in
  let k := if i <? 0 then i + len else i in
  if (k <? 0) || (len <=? k) then Raise IndexError
  else match nth_error l (Z.to_nat k) with
       | Some a => Ok a
       | None => Raise IndexError
       end.

(** [range(start, stop)] *)
Definition range (start stop : Z) : list Z :=
  map (fun k => start + Z.of_nat k) (seq 0 (Z.to_nat (stop - start))).

(** [range(start, stop, -1)] *)
Definition range_down (start stop : Z) : list Z :=
  map (fun k => start - Z.of_nat k) (seq 0 (Z.to_nat (start - stop))).

(** [c.isspace()] on code points below 256: TAB..CR, FS..US, SPACE,
    NEL and NBSP. *)
Definition isspace (c : ascii) : bool :=
  let n := N_of_ascii c in
  ((9 <=? n) && (n <=? 13) || (28 <=? n) && (n <=? 32)
   || (n =? 133) || (n =? 160))%N.

Fixpoint mem (c : ascii) (chars : string) : bool :=
  match chars with
  | EmptyString => false
  | String c' chars' => (c =? c')%char || mem c chars'
  end.

Fixpoint lstrip_by (drop : ascii -> bool) (s : string) : string :=
  match s with
  | EmptyString => EmptyString
  | String c s' => if drop c then lstrip_by drop s' else s
  end.

Fixpoint rstrip_by (drop : ascii -> bool) (s : string) : string :=
  match s with
  | EmptyString => EmptyString
  | String c s' =>
      match rstrip_by drop s' with
      | EmptyString => if drop c then EmptyString else String c EmptyString
      | kept => String c kept
      end
  end.

(** [s.strip()] *)
Definition strip (s : string) : string :=
  rstrip_by isspace (lstrip_by isspace s).

(** [s.strip(chars)] *)
Definition strip_chars (chars s : string) : string :=
  rstrip_by (fun c => mem c chars) (lstrip_by (fun c => mem c chars) s).

(** [s.split(sep)] for a one-character separator: never an empty list. *)
Fixpoint split (sep : ascii) (s : string) : list string :=
  match s with
  | EmptyString => [EmptyString]
  | String c s' =>
      if (c =? sep)%char then EmptyString :: split sep s'
      else match split sep s' with
           | field :: fields => String c field :: fields
           | [] => [String c EmptyString]
           end
  end.

(** [s.startswith(p)] *)
Definition startswith (p s : string) : bool := String.prefix p s.

(** [c in s] for a one-character [c] *)
Definition contains (c : ascii) (s : string) : bool := mem c s.

(** The truth value of a string: [if s:] *)
Definition truthy (s : string) : bool :=
  match s with
  | EmptyString => false
  | String _ _ => true
  end.

Definition isdigit (c : ascii) : bool :=
  let n := N_of_ascii c in ((48 <=? n) && (n <=? 57))%N.

Definition digit_value (c : ascii) : Z := Z.of_N (N_of_ascii c) - 48.

(** The run of digits at the head of a decimal literal, in which single
    underscores may separate digits: its value, its number of digits and
    what follows it; [None] when two underscores meet or the run ends in
    one. *)
Fixpoint scan_digits (s : string) (after_underscore : bool) (acc : Z)
  (count : nat) : option (Z * nat * string) :=
  match s with
  | EmptyString => if after_underscore then None else Some (acc, count, s)
  | String c s' =>
      if isdigit c then
        scan_digits s' false (10 * acc + digit_value c) (S count)
      else if (c =? "_")%char then
             if after_underscore then None else scan_digits s' true acc count
           else if after_underscore then None else Some (acc, count, s)
  end.

(** [c.isprintable()] on code points 128..255. *)
Definition isprintable_high (c : ascii) : bool :=
  let n := N_of_ascii c in ((161 <=? n) && negb (n =? 173))%N.

Definition hex_digit (n : N) : ascii :=
  ascii_of_N (if (n <? 10)%N then 48 + n else 87 + n).

(** One character of [repr(s)] between the quotes. *)
Definition repr_char (quote c : ascii) : string :=
  let n := N_of_ascii c in
  if (c =? quote)%char || (c =? "\")%char then String "\" (String c EmptyString)
  else if (n =? 9)%N then "\t"
  else if (n =? 10)%N then "\n"
  else if (n =? 13)%N then "\r"
  else if (n <? 32)%N || (n =? 127)%N
          || (128 <=? n)%N && negb (isprintable_high c)
       then String "\" (String "x" (String (hex_digit (n / 16))
                                    (String (hex_digit (n mod 16)) EmptyString)))
  else String c EmptyString.

Fixpoint repr_chars (quote : ascii) (s : string) : string :=
  match s with
  | EmptyString => String quote EmptyString
  | String c s' => repr_char quote c ++ repr_chars quote s'
  end.

(** [repr(s)]: in single quotes, unless [s] holds a single quote and no
    double quote. *)
Definition repr (s : string) : string :=
  let quote : ascii :=
    if mem "'" s && negb (mem "034" s) then "034"%char else "'"%char in
  String quote (repr_chars quote s).

(** What the [%.200R] of the invalid-literal message shows of [s]. *)
Definition shown (s : string) : string := substring 0 200 (repr s).

(** The default limit on the digits of a decimal literal; the program
    does not change it. *)
Definition max_str_digits : nat := 4300.

(** [int(s)]: surrounding whitespace, an optional sign, then the digits.
    A run of more than [max_str_digits] digits is refused before what
    follows it is looked at. *)
Definition int (s : string) : outcome Z :=
  let '(sign, body) :=
    match strip s with
    | String "+" body => (1, body)
    | String "-" body => (-1, body)
    | body => (1, body)
    end in
  match body with
  | String c _ =>
      if isdigit c then
        match scan_digits body false 0 0 with
        | Some (v, count, rest) =>
            if (max_str_digits <? count)%nat
            then Raise (TooManyDigits max_str_digits count)
            else match rest with
                 | EmptyString => Ok (sign * v)
                 | String _ _ => Raise (InvalidLiteral (shown s))
                 end
        | None => Raise (InvalidLiteral (shown s))
        end
      else Raise (InvalidLiteral (shown s))
  | EmptyString => Raise (InvalidLiteral (shown s))
  end.

(** The literal without its sign. *)
Definition unsigned (s : string) : string :=
  match s with
  | String "+" body => body
  | String "-" body => body
  | body => body
  end.

(** The number of digits in the leading run of digits and underscores. *)
Fixpoint digit_run (s : string) : nat :=
  match s with
  | EmptyString => O
  | String c s' =>
      if isdigit c then S (digit_run s')
      else if (c =? "_")%char then digit_run s' else O
  end.

(** The number of digits that [int(s)] holds against the limit. *)
Definition digit_count (s : string) : nat := digit_run (unsigned (strip s)).

End Py.

(** ** SpiralTraverser.traverse *)

(** The local variables of [traverse] that the [while] loop updates. *)
Record state (A : Type) : Type := mkState {
  top : Z; bottom : Z; left : Z; right : Z; result : list A
}.
Arguments mkState {A}.
Arguments top {A}.
Arguments bottom {A}.
Arguments left {A}.
Arguments right {A}.
Arguments result {A}.

Section Spiral.

Context {A : Type}.

(** [read i j] is the expression [matrix[i][j]]. *)
Variable read : Z -> Z -> outcome A.

(** [for k in idx: result.append(f(k))] *)
Fixpoint for_append (f : Z -> outcome A) (idx : list Z) (acc : list A)
  : outcome (list A) :=
  match idx with
  | [] => Ok acc
  | k :: idx' => v <- f k ;; for_append f idx' (acc ++ [v])
  end.

(** [top <= bottom and left <= right] *)
Definition loop_cond (s : state A) : bool :=
  (top s <=? bottom s) && (left s <=? right s).

(** One pass through the body of the [while] loop. *)
Definition loop_body (s : state A) : outcome (state A) :=
  let '(mkState top bottom left right result) := s in
  (* down the left edge *)
  result <- for_append (fun i => read i left)
                       (Py.range top (bottom + 1)) result ;;
  let left := left + 1 in
  (* right along the bottom row *)
  result <- for_append (fun j => read bottom j)
                       (Py.range left (right + 1)) result ;;
  let bottom := bottom - 1 in
  (* up the right edge *)
  '(result, right) <-
    (if left <=? right then
       result <- for_append (fun i => read i right)
                            (Py.range_down bottom (top - 1)) result ;;
       Ok (result, right - 1)
     else Ok (result, right)) ;;
  (* left along the top row *)
  '(result, top) <-
    (if top <=? bottom then
       result <- for_append (fun j => read top j)
                            (Py.range_down right (left - 1)) result ;;
       Ok (result, top + 1)
     else Ok (result, top)) ;;
  Ok (mkState top bottom left right result).

(** The loop runs while [top <= bottom]; every pass lowers [bottom] by one
    and never lowers [top]. *)
Definition loop_measure (s : state A) : nat :=
  Z.to_nat (bottom s - top s + 1).

(** [while top <= bottom and left <= right: ...] followed by
    [return result] *)
Equations? spiral_loop (s : state A) : outcome (list A)
  by wf (loop_measure s) lt :=
  spiral_loop s with inspect (loop_cond s) := {
    | exist _ false _ => Ok (result s)
    | exist _ true Hc with inspect (loop_body s) := {
        | exist _ (inl e) _ => Raise e
        | exist _ (inr s') Hb => spiral_loop s' } }.
Proof.
  unfold loop_cond in Hc. apply andb_prop in Hc as [Hc _].
  apply Z.leb_le in Hc. unfold loop_measure.
  enough (bottom s' = bottom s - 1 /\ top s <= top s') by lia.
  clear Hc spiral_loop. revert Hb.
  destruct s as [t b l r acc]; unfold loop_body; simpl.
  destruct (for_append _ _ acc) as [e|acc1]; simpl; [discriminate|].
  destruct (for_append _ _ acc1) as [e|acc2]; simpl; [discriminate|].
  destruct (l + 1 <=? r); simpl.
  - destruct (for_append _ _ acc2) as [e|acc3]; simpl; [discriminate|].
    destruct (t <=? b - 1); simpl.
    + destruct (for_append _ _ acc3) as [e|acc4]; simpl; [discriminate|].
      intros [= <-]; simpl; lia.
    + intros [= <-]; simpl; lia.
  - destruct (t <=? b - 1); simpl.
    + destruct (for_append _ _ acc2) as [e|acc4]; simpl; [discriminate|].
      intros [= <-]; simpl; lia.
    + intros [= <-]; simpl; lia.
Qed.

End Spiral.

(** [matrix[i][j]] *)
Definition cell {A} (matrix : list (list A)) (i j : Z) : outcome A :=
  row <- Py.index matrix i ;; Py.index row j.

Definition traverse {A} (matrix : list (list A)) : outcome (list A) :=
  match matrix with
  | [] => Ok []
  | _ =>
      let n := Z.of_nat (length matrix) in
      spiral_loop (cell matrix) (mkState 0 (n - 1) 0 (n - 1) [])
  end.

(** ** MatrixParser.parse_matrix *)

Definition newline : ascii := "010"%char.

(** The text of a line break, for writing multi-line texts. *)
Definition nl : string := String newline EmptyString.

(** The inner loop over the fields of one data line:
    [cleaned_num = num.strip()], then [row.append(int(cleaned_num))] when
    [cleaned_num] is not empty. *)
Fixpoint parse_fields (numbers : list string) (row : list Z)
  : outcome (list Z) :=
  match numbers with
  | [] => Ok row
  | num :: numbers' =>
      let cleaned_num := Py.strip num in
      if Py.truthy cleaned_num then
        v <- Py.int cleaned_num ;; parse_fields numbers' (row ++ [v])
      else parse_fields numbers' row
  end.

(** [line.strip('|').split('|')] *)
Definition fields (line : string) : list string :=
  Py.split "|" (Py.strip_chars "|" line).

(** The loop over the lines of the text. *)
Fixpoint parse_lines (lines : list string) (matrix : list (list Z))
  : outcome (list (list Z)) :=
  match lines with
  | [] => Ok matrix
  | line :: lines' =>
      let line := Py.strip line in
      if Py.startswith "+" line then parse_lines lines' matrix
      else if Py.contains "|" line then
        row <- parse_fields (fields line) [] ;;
        match row with
        | [] => parse_lines lines' matrix
        | _ :: _ => parse_lines lines' (matrix ++ [row])
        end
      else parse_lines lines' matrix
  end.

(** [for row in matrix: if len(row) != n: raise ValueError(...)] *)
Fixpoint check_square (n : nat) (rows : list (list Z)) : outcome unit :=
  match rows with
  | [] => Ok tt
  | row :: rows' =>
      if negb (length row =? n)%nat then Raise (NotSquare n (length row))
      else check_square n rows'
  end.

Definition parse_matrix (text : string) : outcome (list (list Z)) :=
  let lines := Py.split newline (Py.strip text) in
  matrix <- parse_lines lines [] ;;
  match matrix with
  | [] => Ok matrix
  | _ :: _ =>
      let n := length matrix in
      _ <- check_square n matrix ;;
      Ok matrix
  end.

(** ** Vocabulary of the statements *)

(** A matrix is square when every row is as long as the list of rows. *)
Definition square {A} (matrix : list (list A)) : Prop :=
  Forall (fun row => length row = length matrix) matrix.

(** A read that returns the index pair itself. *)
Definition coords (i j : Z) : outcome (Z * Z) := Ok (i, j).

(** The index pairs [(i, j)] in the order in which [traverse] evaluates
    [matrix[i][j]] on a matrix of [n] rows: the same loop from the same
    initial bounds, reading the indices themselves. *)
Definition visited (n : nat) : outcome (list (Z * Z)) :=
  spiral_loop coords
    (mkState 0 (Z.of_nat n - 1) 0 (Z.of_nat n - 1) []).

(** A read function applied to an index pair. *)
Definition at_pair {A} (read : Z -> Z -> outcome A) (p : Z * Z) : outcome A :=
  read (fst p) (snd p).

(** The loop state with another accumulator. *)
Definition with_result {A B} (s : state A) (acc : list B) : state B :=
  mkState (top s) (bottom s) (left s) (right s) acc.

(** The cells read by one pass of the loop on the square [a..b] x [a..b]. *)
Definition ring (a b : Z) : list (Z * Z) :=
  map (fun i => (i, a)) (Py.range a (b + 1)) ++
  map (fun j => (b, j)) (Py.range (a + 1) (b + 1)) ++
  map (fun i => (i, b)) (Py.range_down (b - 1) (a - 1)) ++
  map (fun j => (a, j)) (Py.range_down (b - 1) a).

(** All index pairs of an [n] x [n] matrix, row by row. *)
Definition grid (n : nat) : list (Z * Z) :=
  list_prod (Py.range 0 (Z.of_nat n)) (Py.range 0 (Z.of_nat n)).

(** The value stored at an in-range cell. *)
Definition at_ (matrix : list (list Z)) (p : Z * Z) : Z :=
  nth (Z.to_nat (snd p)) (nth (Z.to_nat (fst p)) matrix []) 0.

(** The lines of a text as [parse_matrix] iterates over them. *)
Definition lines_of (text : string) : list string :=
  Py.split newline (Py.strip text).

(** [parse_matrix] from its list of lines onwards: the loop over the lines
    and the width check. *)
Definition parse_matrix_lines (lines : list string)
  : outcome (list (list Z)) :=
  matrix <- parse_lines lines [] ;;
  match matrix with
  | [] => Ok matrix
  | _ :: _ =>
      let n := length matrix in
      _ <- check_square n matrix ;;
      Ok matrix
  end.

(** A line that reaches the field loop: after trimming it does not start
    with [+] and contains [|]. *)
Definition is_data_line (line : string) : bool :=
  let line := Py.strip line in
  negb (Py.startswith "+" line) && Py.contains "|" line.

(** The fields of a line as the field loop sees them. *)
Definition fields_of (line : string) : list string :=
  fields (Py.strip line).

(** A field that reaches [int] and is rejected by it. *)
Definition bad_field (num : string) : bool :=
  Py.truthy (Py.strip num) &&
  match Py.int (Py.strip num) with inl _ => true | inr _ => false end.

(** A line all of whose fields are empty after trimming. *)
Definition all_fields_blank (line : string) : bool :=
  forallb (fun num => negb (Py.truthy (Py.strip num))) (fields_of line).

(** A line that adds no row: not a data line, or one without fields. *)
Definition adds_no_row (line : string) : bool :=
  negb (is_data_line line) || all_fields_blank line.

(** The errors with which [int] rejects the literal [s]: the invalid
    literal error that shows [s], or the digit limit error with the number
    of digits of [s]. *)
Definition int_errors (s : string) (e : exn) : Prop :=
  e = InvalidLiteral (Py.shown s) \/
  e = TooManyDigits Py.max_str_digits (Py.digit_count s) /\
  (Py.max_str_digits < Py.digit_count s)%nat.

(** A string of [n] copies of a character, for writing long literals. *)
Definition copies (n : nat) (c : ascii) : string :=
  string_of_list_ascii (repeat c n).

(** The first field, in reading order, that [int] rejects. *)
Definition first_bad_field (text : string) : option string :=
  find bad_field (flat_map fields_of (filter is_data_line (lines_of text))).

(** A row whose width is not [n]. *)
Definition wrong_width (n : nat) (row : list Z) : bool :=
  negb (length row =? n)%nat.

(** ** The order of the traversal, in closed form *)

(** The rings of the square [a..b] x [a..b], the outermost first. *)
Definition rings (a b : Z) : list (Z * Z) :=
  flat_map (fun d => ring (a + Z.of_nat d) (b - Z.of_nat d))
           (seq 0 (Z.to_nat ((b - a + 2) / 2))).

(** The spiral order on [n] rows. *)
Definition spiral_order (n : nat) : list (Z * Z) :=
  rings 0 (Z.of_nat n - 1).

(** [f] applied to a result, an exception passed on. *)
Definition fmap {A B} (f : A -> B) (c : outcome A) : outcome B :=
  x <- c ;; Ok (f x).

(** ** The parser, declaratively *)

(** The truth value of a list: [if row:] *)
Definition nonempty {A} (l : list A) : bool :=
  match l with
  | [] => false
  | _ :: _ => true
  end.

(** The integers of a data line: [int] of every field that is not empty
    after trimming, from left to right. *)
Definition row_of (line : string) : outcome (list Z) :=
  mapM Py.int (filter Py.truthy (map Py.strip (fields_of line))).

(** ** MatrixClient.fetch_matrix, get_matrix, get_matrix_safe *)

(** The text of an exception, [str(e)].  The messages built by the
    f-strings of this layer are kept as their fixed prefix (one
    constructor each) and the interpolated value. *)
Inductive message : Type :=
| External (text : string)
    (* the text of an exception raised outside this file *)
| CoreMessage (e : exn)
    (* the text of an exception raised by parse_matrix or traverse *)
| EmptyMatrix
    (* the literal of line 127: an empty matrix was received *)
| ParsingError (inner : message)
    (* line 136: matrix parsing error, then str(e) *)
| ServerError (status_code : Z)
    (* line 132: server error, then e.response.status_code *)
| NetworkError (inner : message)
    (* line 134: network error, then str(e) *)
| UnexpectedError (inner : message)
    (* line 167: unexpected error, then str(e) *)
| FetchFailed (inner : message).
    (* line 176, printed: error while getting the matrix, then e *)

(** Exceptions by the classes that the [except] clauses tell apart;
    [OtherException] is any other class derived from [Exception]. *)
Inductive exception : Type :=
| HTTPStatusError (status_code : Z) (msg : message)
| RequestError (msg : message)
| ValueError (msg : message)
| ConnectionError (msg : message)
| OtherException (msg : message).

(** [str(e)] *)
Definition str (e : exception) : message :=
  match e with
  | HTTPStatusError _ msg => msg
  | RequestError msg => msg
  | ValueError msg => msg
  | ConnectionError msg => msg
  | OtherException msg => msg
  end.

(** An exception of the core as the handlers see it: the parser raises
    [ValueError]s, and [IndexError] is in none of the handled classes. *)
Definition of_core (e : exn) : exception :=
  match e with
  | IndexError => OtherException (CoreMessage e)
  | InvalidLiteral _ => ValueError (CoreMessage e)
  | TooManyDigits _ _ => ValueError (CoreMessage e)
  | NotSquare _ _ => ValueError (CoreMessage e)
  end.

Definition attempt (A : Type) : Type := (exception + A)%type.

(** [fetch_matrix], given what [await self.client.get(url)] and
    [response.raise_for_status()] produced: [response.text], or the
    exception that one of the two raised.  The network is an input of the
    model; creating the client is not modelled. *)
Definition fetch_matrix (got : attempt string) : attempt (list (list Z)) :=
  let body : attempt (list (list Z)) :=
    match got with
    | inl e => inl e
    | inr text =>
        match parse_matrix text with
        | inl e => inl (of_core e)
        | inr [] => inl (ValueError EmptyMatrix)
        | inr (row :: rows) => inr (row :: rows)
        end
    end in
  match body with
  | inl (HTTPStatusError status_code _) =>
      inl (ConnectionError (ServerError status_code))
  | inl (RequestError msg) => inl (ConnectionError (NetworkError msg))
  | inl (ValueError msg) => inl (ValueError (ParsingError msg))
  | inl e => inl e
  | inr matrix => inr matrix
  end.

(** The [try] block of [get_matrix] and its handlers, given the same
    input; the [async with] around it is in [get_matrix_call] below. *)
Definition get_matrix (got : attempt string) : attempt (list Z) :=
  let body : attempt (list Z) :=
    match fetch_matrix got with
    | inl e => inl e
    | inr matrix =>
        match traverse matrix with
        | inl e => inl (of_core e)
        | inr out => inr out
        end
    end in
  match body with
  | inl (ConnectionError msg) => inl (ConnectionError msg)
  | inl (ValueError msg) => inl (ValueError msg)
  | inl e => inl (ConnectionError (UnexpectedError (str e)))
  | inr out => inr out
  end.

(** What a step can raise: an exception of a class derived from
    [Exception], or one of a class that is not (KeyboardInterrupt,
    asyncio.CancelledError and the like), which no handler of this file
    catches. *)
Inductive raised : Type :=
| Raised (e : exception)
| RaisedBase (msg : message).

(** A whole call of [get_matrix], [async with] included.  [entered] is
    what [MatrixClient.__aenter__] raised, if anything; [got] is what the
    request produced; [closing] is what [__aexit__] raised, if anything.
    Entering and leaving happen outside the [try] block, so what they raise
    is not converted; [__aexit__] runs whatever the block did, does not
    swallow its exception, and what it raises replaces the outcome of the
    block. *)
Definition get_matrix_call (entered : option raised) (got : raised + string)
  (closing : option raised) : raised + list Z :=
  match entered with
  | Some r => inl r
  | None =>
      let block : raised + list Z :=
        match got with
        | inl (RaisedBase msg) => inl (RaisedBase msg)
        | inl (Raised e) =>
            match get_matrix (inl e) with
            | inl e' => inl (Raised e')
            | inr out => inr out
            end
        | inr text =>
            match get_matrix (inr text) with
            | inl e' => inl (Raised e')
            | inr out => inr out
            end
        end in
      match closing with
      | Some r => inl r
      | None => block
      end
  end.


(** * Examples *)

Example traverse_1x1 : traverse [[5]] = Ok [5].
Proof. reflexivity. Qed.

Example traverse_4x4 :
  traverse [[10;20;30;40];[50;60;70;80];[90;100;110;120];[130;140;150;160]]
  = Ok [10;50;90;130;140;150;160;120;80;40;30;20;60;100;110;70].
Proof. vm_compute. reflexivity. Qed.

(** Without squareness a read can fail: the second row has no column 1. *)
Example traverse_ragged : traverse [[1; 2]; [3]] = Raise IndexError.
Proof. vm_compute. reflexivity. Qed.

Example index_examples :
  Py.index [1; 2; 3] (-1) = Ok 3 /\ Py.index [1; 2; 3] 2 = Ok 3 /\
  Py.index [1; 2; 3] 3 = Raise IndexError /\
  Py.index [1; 2; 3] (-4) = Raise IndexError.
Proof. vm_compute. repeat split. Qed.

Example range_examples :
  Py.range 1 4 = [1; 2; 3] /\ Py.range 2 2 = [] /\
  Py.range_down 2 (-1) = [2; 1; 0] /\ Py.range_down 0 0 = [].
Proof. vm_compute. repeat split. Qed.

Example parse_2x2 :
  parse_matrix
    (nl ++ "+---+---+" ++ nl ++ "| 1 | 2 |" ++ nl ++ "+---+---+" ++ nl ++
     "| 4 | -3 |" ++ nl ++ "+---+---+" ++ nl)%string
  = Ok [[1; 2]; [4; -3]].
Proof. vm_compute. reflexivity. Qed.

Example parse_bad_field :
  parse_matrix ("| 1 | x |" ++ nl ++ "| 2 | 3 |")%string
  = Raise (InvalidLiteral "'x'").
Proof. vm_compute. reflexivity. Qed.

Example parse_ragged :
  parse_matrix ("| 1 | 2 |" ++ nl ++ "| 3 | 4 | 5 |")%string
  = Raise (NotSquare 2 3).
Proof. vm_compute. reflexivity. Qed.

Example int_examples :
  Py.int "007" = Ok 7 /\ Py.int "+5" = Ok 5 /\ Py.int "-12" = Ok (-12) /\
  Py.int "1_000" = Ok 1000 /\ Py.int "1__0" = Raise (InvalidLiteral "'1__0'") /\
  Py.int "_1" = Raise (InvalidLiteral "'_1'") /\
  Py.int "1_" = Raise (InvalidLiteral "'1_'") /\
  Py.int "1_x" = Raise (InvalidLiteral "'1_x'") /\
  Py.int "+" = Raise (InvalidLiteral "'+'") /\
  Py.int "1 2" = Raise (InvalidLiteral "'1 2'") /\
  Py.int "--1" = Raise (InvalidLiteral "'--1'").
Proof. vm_compute. repeat split. Qed.

Example repr_examples :
  Py.repr "x" = "'x'"%string /\
  Py.repr "it's" = String "034" ("it's" ++ String "034" EmptyString) /\
  Py.repr (String "009" (String "000" (String "255" (String "160" EmptyString))))
  = ("'\t\x00" ++ String "255" "\xa0'")%string /\
  Py.repr (String "\" EmptyString) = "'\\'"%string /\
  String.length (Py.shown (copies 300 "a")) = 200%nat /\
  Py.shown (copies 300 "a") = ("'" ++ copies 199 "a")%string.
Proof. vm_compute. repeat split. Qed.

(** More than 4300 digits are refused, whatever follows them; 4300 are
    not. *)
Example int_digit_limit :
  Py.int (copies 4301 "1") = Raise (TooManyDigits 4300 4301) /\
  Py.int (copies 4301 "1" ++ "x") = Raise (TooManyDigits 4300 4301) /\
  Py.int ("-" ++ copies 4300 "0" ++ "_1") = Raise (TooManyDigits 4300 4301) /\
  Py.int (copies 4300 "0") = Ok 0 /\
  Py.int (copies 4301 "1" ++ "__") = Raise (InvalidLiteral (Py.shown (copies 4301 "1" ++ "__"))).
Proof. vm_compute. repeat split. Qed.

Example parse_digit_limit :
  parse_matrix ("|" ++ copies 4301 "1" ++ "| x |")%string
  = Raise (TooManyDigits 4300 4301) /\
  parse_matrix ("| 1 |" ++ copies 4301 "1" ++ "|")%string
  = Raise (TooManyDigits 4300 4301).
Proof. vm_compute. repeat split. Qed.

Example split_examples :
  Py.split "|" EmptyString = [EmptyString] /\
  Py.split "|" "a||b" = ["a"; EmptyString; "b"]%string /\
  Py.strip_chars "|" "|| 1 | 2 |" = " 1 | 2 "%string /\
  Py.strip "  a b  " = "a b"%string.
Proof. vm_compute. repeat split. Qed.

(** * Properties of the traversal *)

(** ** The error monad and the [for] loops *)

Lemma mapM_Ok {A B} (g : A -> B) l : mapM (fun a => Ok (g a)) l = Ok (map g l).
Proof. induction l as [|a l IH]; simpl; [reflexivity|]. now rewrite IH. Qed.

Lemma mapM_app {A B} (f : A -> outcome B) l1 l2 :
  mapM f (l1 ++ l2) = v1 <- mapM f l1 ;; v2 <- mapM f l2 ;; Ok (v1 ++ v2).
Proof.
  induction l1 as [|a l1 IH]; simpl.
  - destruct (mapM f l2); reflexivity.
  - destruct (f a) as [e|b]; simpl; [reflexivity|].
    rewrite IH. destruct (mapM f l1) as [e|v1]; simpl; [reflexivity|].
    destruct (mapM f l2); reflexivity.
Qed.

Lemma mapM_map {A B C} (f : B -> outcome C) (g : A -> B) l :
  mapM f (map g l) = mapM (fun a => f (g a)) l.
Proof. induction l as [|a l IH]; simpl; [reflexivity|]. now rewrite IH. Qed.

Lemma mapM_ext_in {A B} (f g : A -> outcome B) l :
  (forall a, In a l -> f a = g a) -> mapM f l = mapM g l.
Proof.
  induction l as [|a l IH]; intros H; simpl; [reflexivity|].
  rewrite (H a) by now left. rewrite IH; [reflexivity|].
  intros; apply H; now right.
Qed.

Lemma for_append_mapM {A} (f : Z -> outcome A) idx acc :
  for_append f idx acc = vs <- mapM f idx ;; Ok (acc ++ vs).
Proof.
  revert acc; induction idx as [|k idx IH]; intros acc; simpl.
  - now rewrite app_nil_r.
  - destruct (f k) as [e|v]; simpl; [reflexivity|].
    rewrite IH. destruct (mapM f idx) as [e|vs]; simpl; [reflexivity|].
    now rewrite <- app_assoc.
Qed.

Lemma for_append_Ok {A} (g : Z -> A) idx acc :
  for_append (fun k => Ok (g k)) idx acc = Ok (acc ++ map g idx).
Proof. rewrite for_append_mapM, mapM_Ok. reflexivity. Qed.

(** ** The [while] loop *)

Section Loop.

Context {A : Type} (read : Z -> Z -> outcome A).

Lemma spiral_loop_eq s :
  spiral_loop read s =
  if loop_cond s then s' <- loop_body read s ;; spiral_loop read s'
  else Ok (result s).
Proof.
  funelim (spiral_loop read s);
    repeat match goal with
           | E : loop_cond _ = _ |- _ => rewrite E
           | E : loop_body _ _ = _ |- _ => rewrite E
           end; reflexivity.
Qed.

(** One pass reads the cells that the same pass over [coords] lists, in
    that order, and moves the bounds alike. *)
Lemma loop_body_reads t b l r iacc :
  exists s1 more, loop_body coords (mkState t b l r iacc) = Ok s1 /\
    result s1 = iacc ++ more /\
    forall acc, mapM (at_pair read) iacc = Ok acc ->
      loop_body read (mkState t b l r acc) =
      vs <- mapM (at_pair read) (result s1) ;; Ok (with_result s1 vs).
Proof.
  unfold loop_body, coords.
  repeat (rewrite for_append_Ok; cbn [bind]).
  destruct (l + 1 <=? r); cbn [bind];
    repeat (rewrite for_append_Ok; cbn [bind]);
    (destruct (t <=? b - 1); cbn [bind];
     repeat (rewrite for_append_Ok; cbn [bind]));
    (eexists; eexists; split; [reflexivity|]);
    (split; [cbn [result]; rewrite <- ?app_assoc; reflexivity|]);
    intros acc Hacc; cbn [result with_result top bottom left right].
  all: rewrite !mapM_app, Hacc, !mapM_map; unfold at_pair; cbn [bind fst snd];
    repeat (rewrite for_append_mapM;
            match goal with
            | |- context [mapM ?f ?l] => destruct (mapM f l) as [?|?]
            end; cbn [bind]; try reflexivity).
Qed.

(** The loop over [coords] never fails and only appends. *)
Lemma spiral_loop_coords_Ok (s : state (Z * Z)) :
  exists more, spiral_loop coords s = Ok (result s ++ more).
Proof.
  funelim (spiral_loop coords s).
  - exists []. now rewrite app_nil_r.
  - destruct s as [t b l r iacc].
    destruct (loop_body_reads t b l r iacc) as (s1 & more & E & _).
    congruence.
  - destruct s as [t b l r iacc].
    destruct (loop_body_reads t b l r iacc) as (s1 & more & E & Hres & _).
    assert (s1 = s') by congruence. subst s1.
    destruct H as [more' ->]. exists (more ++ more').
    cbn [result]. now rewrite Hres, <- app_assoc.
Qed.

(** What [traverse] returns is what it reads at the index pairs listed by
    the loop over [coords]: element by element, failing at the first
    failing read. *)
Lemma spiral_loop_reads (si : state (Z * Z)) idx :
  spiral_loop coords si = Ok idx ->
  forall acc, mapM (at_pair read) (result si) = Ok acc ->
    spiral_loop read (with_result si acc) = mapM (at_pair read) idx.
Proof.
  funelim (spiral_loop coords si); intros Hidx acc Hacc.
  - injection Hidx as <-.
    rewrite spiral_loop_eq.
    replace (loop_cond (with_result s acc)) with (loop_cond s) by reflexivity.
    match goal with E : loop_cond _ = _ |- _ => rewrite E end.
    now rewrite Hacc.
  - discriminate.
  - rewrite spiral_loop_eq.
    replace (loop_cond (with_result s acc)) with (loop_cond s) by reflexivity.
    rewrite Hc. destruct s as [t b l r iacc].
    destruct (loop_body_reads t b l r iacc) as (s1 & more & E & Hres & Hrd).
    assert (s1 = s') by congruence. subst s1.
    unfold with_result; cbn [top bottom left right result with_result] in *.
    rewrite (Hrd acc Hacc).
    destruct (mapM (at_pair read) (result s')) as [e|vs] eqn:Hvs; cbn [bind].
    + destruct (spiral_loop_coords_Ok s') as [more' Hmore].
      rewrite Hmore in Hidx. injection Hidx as <-.
      now rewrite mapM_app, Hvs.
    + now apply H.
Qed.

End Loop.

(** ** Ranges *)

Lemma in_range x start stop : In x (Py.range start stop) <-> start <= x < stop.
Proof.
  unfold Py.range. rewrite in_map_iff. split.
  - intros (k & <- & Hk). apply in_seq in Hk. lia.
  - intros H. exists (Z.to_nat (x - start)). split; [lia|]. apply in_seq. lia.
Qed.

Lemma in_range_down x start stop :
  In x (Py.range_down start stop) <-> stop < x <= start.
Proof.
  unfold Py.range_down. rewrite in_map_iff. split.
  - intros (k & <- & Hk). apply in_seq in Hk. lia.
  - intros H. exists (Z.to_nat (start - x)). split; [lia|]. apply in_seq. lia.
Qed.

Lemma NoDup_range start stop : NoDup (Py.range start stop).
Proof.
  unfold Py.range. apply NoDup_map_NoDup_ForallPairs; [|apply seq_NoDup].
  intros x y _ _. lia.
Qed.

Lemma NoDup_range_down start stop : NoDup (Py.range_down start stop).
Proof.
  unfold Py.range_down. apply NoDup_map_NoDup_ForallPairs; [|apply seq_NoDup].
  intros x y _ _. lia.
Qed.

Lemma NoDup_map_inj {A B} (f : A -> B) l :
  (forall x y, f x = f y -> x = y) -> NoDup l -> NoDup (map f l).
Proof.
  intros Hf. apply NoDup_map_NoDup_ForallPairs. intros x y _ _. apply Hf.
Qed.

Lemma range_cons start stop :
  start < stop -> Py.range start stop = start :: Py.range (start + 1) stop.
Proof.
  intros H. unfold Py.range.
  replace (Z.to_nat (stop - start)) with (S (Z.to_nat (stop - (start + 1)))) by lia.
  cbn [seq map]. f_equal; [lia|].
  rewrite <- seq_shift, map_map. apply map_ext. intros k. lia.
Qed.

Lemma range_nil start stop : stop <= start -> Py.range start stop = [].
Proof.
  intros H. unfold Py.range. now replace (Z.to_nat (stop - start)) with O by lia.
Qed.

Lemma range_down_nil start stop : start <= stop -> Py.range_down start stop = [].
Proof.
  intros H. unfold Py.range_down.
  now replace (Z.to_nat (start - stop)) with O by lia.
Qed.

(** ** One ring of the spiral *)

Lemma in_ring a b i j :
  a <= b ->
  In (i, j) (ring a b) <->
  (a <= i <= b /\ a <= j <= b) /\ (i = a \/ i = b \/ j = a \/ j = b).
Proof.
  intros Hab. unfold ring. rewrite !in_app_iff, !in_map_iff. split.
  - intros [(k & [= <- <-] & Hk)|[(k & [= <- <-] & Hk)|
            [(k & [= <- <-] & Hk)|(k & [= <- <-] & Hk)]]];
      (apply in_range in Hk || apply in_range_down in Hk); lia.
  - intros [[Hi Hj] H].
    destruct (Z.eq_dec j a) as [->|Hja].
    { left. exists i. split; [reflexivity|]. apply in_range. lia. }
    destruct (Z.eq_dec i b) as [->|Hib].
    { right; left. exists j. split; [reflexivity|]. apply in_range. lia. }
    destruct (Z.eq_dec j b) as [->|Hjb].
    { right; right; left. exists i. split; [reflexivity|].
      apply in_range_down. lia. }
    right; right; right. exists j. split; [f_equal; lia|].
    apply in_range_down. lia.
Qed.

Lemma NoDup_ring a b : NoDup (ring a b).
Proof.
  unfold ring.
  repeat apply NoDup_app;
    try (apply NoDup_map_inj;
         [intros x y [= ]; congruence
         |apply NoDup_range || apply NoDup_range_down]).
  all: intros [i j]; rewrite ?in_app_iff, !in_map_iff;
    intros (k & [= <- <-] & Hk);
    (apply in_range in Hk || apply in_range_down in Hk);
    intros H;
    repeat match goal with
           | H : _ \/ _ |- _ => destruct H as [H|H]
           | H : exists _, _ |- _ => destruct H as (? & [= ] & H)
           end;
    (apply in_range in H || apply in_range_down in H); lia.
Qed.

(** A ring starts at its top-left corner and goes down the left column. *)
Lemma ring_head a b :
  a <= b ->
  exists rest, ring a b = (a, a) :: rest /\
    (a < b -> exists rest', rest = (a + 1, a) :: rest').
Proof.
  intros Hab. unfold ring. rewrite (range_cons a) by lia.
  cbn [map app]. eexists; split; [reflexivity|].
  intros Hlt. rewrite (range_cons (a + 1)) by lia.
  cbn [map app]. eexists; reflexivity.
Qed.

(** ** The loop on a square *)

(** On the square [a..b] x [a..b] one pass reads the ring and moves every
    bound inwards; on a single cell the two guards leave [right] and [top]
    alone. *)
Lemma loop_body_square a b iacc :
  a <= b ->
  loop_body coords (mkState a b a b iacc) =
  Ok (if a <? b
      then mkState (a + 1) (b - 1) (a + 1) (b - 1) (iacc ++ ring a b)
      else mkState a (b - 1) (a + 1) b (iacc ++ ring a b)).
Proof.
  intros Hab. unfold loop_body, coords, ring.
  repeat (rewrite for_append_Ok; cbn [bind]).
  destruct (Z.ltb_spec a b) as [Hlt|Hge].
  - destruct (Z.leb_spec (a + 1) b); [|lia]. cbn [bind].
    rewrite ?for_append_Ok; cbn [bind].
    destruct (Z.leb_spec a (b - 1)); [|lia]. cbn [bind].
    rewrite ?for_append_Ok; cbn [bind].
    replace (a + 1 - 1) with a by lia.
    now rewrite <- !app_assoc.
  - assert (b = a) by lia. subst b.
    destruct (Z.leb_spec (a + 1) a); [lia|]. cbn [bind].
    destruct (Z.leb_spec a (a - 1)); [lia|]. cbn [bind].
    rewrite (range_down_nil (a - 1) (a - 1)) by lia.
    rewrite (range_down_nil (a - 1) a) by lia.
    cbn [map]. now rewrite !app_nil_r, <- app_assoc.
Qed.

(** The cells that the loop reads, started on the square [a..b] x [a..b]:
    each cell of the square once, ring by ring. *)
Lemma spiral_loop_square (k : nat) a b iacc :
  b - a + 1 <= Z.of_nat k ->
  exists cells,
    spiral_loop coords (mkState a b a b iacc) = Ok (iacc ++ cells) /\
    NoDup cells /\
    (forall i j, In (i, j) cells <-> a <= i <= b /\ a <= j <= b) /\
    (a <= b -> exists rest, cells = ring a b ++ rest).
Proof.
  revert a b iacc. induction k as [|k IH]; intros a b iacc Hk.
  - exists []. rewrite spiral_loop_eq. unfold loop_cond; cbn [top bottom].
    destruct (Z.leb_spec a b); [lia|]. cbn [andb result].
    rewrite app_nil_r. split; [reflexivity|]. split; [constructor|].
    split; [|lia]. intros i j; split; [intros []|lia].
  - rewrite spiral_loop_eq. unfold loop_cond; cbn [top bottom left right].
    destruct (Z.leb_spec a b) as [Hab|Hab]; cbn [andb result].
    2:{ exists []. rewrite app_nil_r. split; [reflexivity|].
        split; [constructor|]. split; [|lia].
        intros i j; split; [intros []|lia]. }
    rewrite loop_body_square by assumption. cbn [bind].
    destruct (Z.ltb_spec a b) as [Hlt|Hge].
    + destruct (IH (a + 1) (b - 1) (iacc ++ ring a b)) as (cells & E & Hnd & Hin & _);
        [lia|].
      exists (ring a b ++ cells). rewrite E, app_assoc.
      split; [reflexivity|]. split; [|split].
      * apply NoDup_app; [apply NoDup_ring|assumption|].
        intros [i j] H1 H2. apply in_ring in H1; [|lia]. apply Hin in H2. lia.
      * intros i j. rewrite in_app_iff, in_ring, Hin by lia. lia.
      * intros _. now exists cells.
    + assert (b = a) by lia. subst b.
      exists (ring a a). rewrite spiral_loop_eq.
      unfold loop_cond; cbn [top bottom left right result].
      destruct (Z.leb_spec a (a - 1)); [lia|]. cbn [andb].
      split; [reflexivity|]. split; [apply NoDup_ring|]. split.
      * intros i j. rewrite in_ring by lia. lia.
      * intros _. exists []. now rewrite app_nil_r.
Qed.

(** ** The traversal of a matrix *)

(** The index pairs read on [n] rows: every pair of [0..n-1] x [0..n-1]
    once, the outermost ring first. *)
Lemma visited_spec (n : nat) :
  exists cells,
    visited n = Ok cells /\
    NoDup cells /\
    (forall i j, In (i, j) cells <->
                 0 <= i < Z.of_nat n /\ 0 <= j < Z.of_nat n) /\
    (0 < n -> exists rest, cells = ring 0 (Z.of_nat n - 1) ++ rest)%nat.
Proof.
  destruct (spiral_loop_square n 0 (Z.of_nat n - 1) []) as (cells & E & Hnd & Hin & Hring);
    [lia|].
  exists cells. split; [exact E|]. split; [exact Hnd|]. split.
  - intros i j. rewrite Hin. lia.
  - intros Hn. apply Hring. lia.
Qed.

(** [traverse] returns the values read at the visited index pairs, in that
    order, and fails where the first of these reads fails; this holds for
    every list of rows, square or not. *)
Lemma traverse_reads {A} (matrix : list (list A)) cells :
  visited (length matrix) = Ok cells ->
  traverse matrix = mapM (at_pair (cell matrix)) cells.
Proof.
  intros Hv. destruct matrix as [|row rows].
  - unfold visited in Hv. rewrite spiral_loop_eq in Hv. cbn in Hv.
    injection Hv as <-. reflexivity.
  - unfold traverse.
    apply (spiral_loop_reads (cell (row :: rows)) _ _ Hv []).
    reflexivity.
Qed.

Lemma index_in_range {A} (l : list A) (i : Z) d :
  0 <= i < Z.of_nat (length l) -> Py.index l i = Ok (nth (Z.to_nat i) l d).
Proof.
  intros Hi. unfold Py.index.
  destruct (Z.ltb_spec i 0); [lia|].
  destruct (Z.ltb_spec i 0); [lia|].
  destruct (Z.leb_spec (Z.of_nat (length l)) i); [lia|]. cbn [orb].
  rewrite (nth_error_nth' l d) by lia. reflexivity.
Qed.

Lemma cell_square (matrix : list (list Z)) i j :
  square matrix ->
  0 <= i < Z.of_nat (length matrix) -> 0 <= j < Z.of_nat (length matrix) ->
  cell matrix i j = Ok (at_ matrix (i, j)).
Proof.
  intros Hsq Hi Hj. unfold cell, at_; cbn [fst snd].
  rewrite (index_in_range matrix i []) by assumption. cbn [bind].
  apply index_in_range.
  unfold square in Hsq. rewrite Forall_forall in Hsq.
  rewrite (Hsq (nth (Z.to_nat i) matrix [])); [assumption|].
  apply nth_In. lia.
Qed.

(** ** The grid of all cells *)

Lemma NoDup_list_prod {A B} (l : list A) (l' : list B) :
  NoDup l -> NoDup l' -> NoDup (list_prod l l').
Proof.
  intros Hl Hl'. induction Hl as [|a l Ha Hl IH]; cbn [list_prod].
  - constructor.
  - apply NoDup_app.
    + apply NoDup_map_inj; [|assumption]. now intros x y [= ].
    + exact IH.
    + intros [a' b'] H1 H2. apply in_map_iff in H1 as (y & [= <- <-] & _).
      apply in_prod_iff in H2 as [H2 _]. contradiction.
Qed.

Lemma range_0_of_nat (n : nat) : Py.range 0 (Z.of_nat n) = map Z.of_nat (seq 0 n).
Proof.
  unfold Py.range. rewrite Z.sub_0_r, Nat2Z.id. apply map_ext. intros; lia.
Qed.

Lemma map_nth_seq {A} (l : list A) d :
  map (fun k => nth k l d) (seq 0 (length l)) = l.
Proof.
  apply (nth_ext _ _ d d).
  - now rewrite length_map, length_seq.
  - intros k Hk. rewrite length_map, length_seq in Hk.
    rewrite (nth_indep _ d (nth 0 l d)) by now rewrite length_map, length_seq.
    rewrite (map_nth (fun k => nth k l d)), seq_nth by assumption.
    reflexivity.
Qed.

(** Reading a square matrix along the grid gives its rows one after the
    other. *)
Lemma map_at_grid (matrix : list (list Z)) :
  square matrix -> map (at_ matrix) (grid (length matrix)) = concat matrix.
Proof.
  intros Hsq. unfold grid. set (n := length matrix).
  rewrite list_prod_as_flat_map, flat_map_concat_map, concat_map, map_map.
  f_equal. rewrite range_0_of_nat, map_map.
  etransitivity; [|exact (map_nth_seq matrix [])]. fold n.
  apply map_ext_in. intros k Hk. apply in_seq in Hk.
  rewrite map_map. unfold at_; cbn [fst snd]. rewrite Nat2Z.id.
  assert (Hlen : length (nth k matrix []) = n).
  { unfold square in Hsq. rewrite Forall_forall in Hsq. apply Hsq.
    apply nth_In. lia. }
  etransitivity; [|exact (map_nth_seq (nth k matrix []) 0)]. rewrite Hlen.
  rewrite map_map. apply map_ext. intros j. now rewrite Nat2Z.id.
Qed.

Lemma visited_grid (n : nat) cells :
  visited n = Ok cells -> Permutation cells (grid n).
Proof.
  intros Hv. destruct (visited_spec n) as (cells' & E & Hnd & Hin & _).
  assert (cells' = cells) by congruence. subst cells'.
  apply NoDup_Permutation; [assumption| |].
  - apply NoDup_list_prod; apply NoDup_range.
  - intros [i j]. unfold grid. rewrite in_prod_iff, !in_range, Hin. tauto.
Qed.

(** On a square matrix no read fails. *)
Lemma traverse_square (matrix : list (list Z)) :
  square matrix ->
  exists cells,
    visited (length matrix) = Ok cells /\
    traverse matrix = Ok (map (at_ matrix) cells).
Proof.
  intros Hsq. destruct (visited_spec (length matrix)) as (cells & E & _ & Hin & _).
  exists cells. split; [exact E|].
  rewrite (traverse_reads matrix cells E), <- mapM_Ok.
  apply mapM_ext_in. intros [i j] Hp. apply Hin in Hp.
  unfold at_pair; cbn [fst snd].
  now apply cell_square.
Qed.

(** * Properties of the parser *)

Lemma find_app {A} (f : A -> bool) l1 l2 :
  find f (l1 ++ l2) =
  match find f l1 with Some x => Some x | None => find f l2 end.
Proof.
  induction l1 as [|a l1 IH]; cbn [app find]; [reflexivity|].
  now destruct (f a).
Qed.

Lemma scan_digits_count s after acc count v count' rest :
  Py.scan_digits s after acc count = Some (v, count', rest) ->
  count' = (count + Py.digit_run s)%nat.
Proof.
  revert after acc count. induction s as [|c s IH]; intros after acc count;
    cbn [Py.scan_digits Py.digit_run].
  - destruct after; [discriminate|]. intros [= _ <- _]. lia.
  - destruct (Py.isdigit c).
    + intros H. apply IH in H. lia.
    + destruct (c =? "_")%char.
      * destruct after; [discriminate|]. apply IH.
      * destruct after; [discriminate|]. intros [= _ <- _]. lia.
Qed.

Lemma int_body s :
  snd (match Py.strip s with
       | String "+" body => (1, body)
       | String "-" body => (-1, body)
       | body => (1, body)
       end) = Py.unsigned (Py.strip s).
Proof.
  unfold Py.unsigned.
  destruct (Py.strip s) as [|[[] [] [] [] [] [] [] []] body]; reflexivity.
Qed.

(** [int] fails only with its two [ValueError]s: the one that shows its
    argument, or the one that counts its digits. *)
Lemma int_error s e : Py.int s = Raise e -> int_errors s e.
Proof.
  unfold Py.int, int_errors, Py.digit_count. rewrite <- int_body.
  destruct (match Py.strip s with
            | String "+" body => (1, body)
            | String "-" body => (-1, body)
            | body => (1, body)
            end) as [sign body]. cbn [snd].
  destruct body as [|c body']; [intros [= <-]; now left|].
  destruct (Py.isdigit c); [|intros [= <-]; now left].
  destruct (Py.scan_digits _ _ _ _) as [[[v count] rest]|] eqn:Hscan;
    [|intros [= <-]; now left].
  apply scan_digits_count in Hscan. cbn [Nat.add] in Hscan. subst count.
  destruct (Nat.ltb_spec Py.max_str_digits (Py.digit_run (String c body'))).
  - intros [= <-]. now right.
  - destruct rest; [discriminate|intros [= <-]; now left].
Qed.

(** The field loop stops at the first rejected field. *)
Lemma parse_fields_find numbers row :
  match find bad_field numbers with
  | Some num => exists e, Py.int (Py.strip num) = Raise e /\
                          parse_fields numbers row = Raise e
  | None => exists vs, parse_fields numbers row = Ok (row ++ vs)
  end.
Proof.
  revert row. induction numbers as [|num numbers IH]; intros row.
  - exists []. cbn. now rewrite app_nil_r.
  - cbn [find parse_fields]. unfold bad_field at 1.
    destruct (Py.truthy (Py.strip num)); cbn [andb].
    + destruct (Py.int (Py.strip num)) as [e|v] eqn:Hint; cbn [bind].
      * now exists e.
      * specialize (IH (row ++ [v])).
        destruct (find bad_field numbers); [exact IH|].
        destruct IH as [vs ->]. exists (v :: vs). now rewrite <- app_assoc.
    + apply IH.
Qed.

Lemma parse_fields_blank numbers row :
  forallb (fun num => negb (Py.truthy (Py.strip num))) numbers = true ->
  parse_fields numbers row = Ok row.
Proof.
  induction numbers as [|num numbers IH]; cbn [forallb parse_fields];
    [reflexivity|].
  intros H. apply andb_prop in H as [H1 H2].
  destruct (Py.truthy (Py.strip num)); [discriminate|]. now apply IH.
Qed.

(** A line that is not a data line leaves the matrix alone. *)
Lemma parse_lines_skip line lines matrix :
  is_data_line line = false ->
  parse_lines (line :: lines) matrix = parse_lines lines matrix.
Proof.
  unfold is_data_line. cbn [parse_lines].
  destruct (Py.startswith "+" (Py.strip line)); [reflexivity|].
  cbn [negb andb]. now intros ->.
Qed.

Lemma parse_lines_data line lines matrix :
  is_data_line line = true ->
  parse_lines (line :: lines) matrix =
  row <- parse_fields (fields_of line) [] ;;
  match row with
  | [] => parse_lines lines matrix
  | _ :: _ => parse_lines lines (matrix ++ [row])
  end.
Proof.
  unfold is_data_line, fields_of. cbn [parse_lines].
  destruct (Py.startswith "+" (Py.strip line)); [discriminate|].
  cbn [negb andb]. now intros ->.
Qed.

(** A line without fields leaves the matrix alone, data line or not. *)
Lemma parse_lines_blank line lines matrix :
  adds_no_row line = true ->
  parse_lines (line :: lines) matrix = parse_lines lines matrix.
Proof.
  unfold adds_no_row, all_fields_blank. intros H.
  destruct (is_data_line line) eqn:Hd.
  - rewrite parse_lines_data, parse_fields_blank by assumption. reflexivity.
  - now apply parse_lines_skip.
Qed.

Lemma parse_lines_no_rows lines matrix :
  forallb adds_no_row lines = true -> parse_lines lines matrix = Ok matrix.
Proof.
  induction lines as [|line lines IH]; intros H; [reflexivity|].
  cbn [forallb] in H. apply andb_prop in H as [H1 H2].
  rewrite parse_lines_blank by assumption. now apply IH.
Qed.

Lemma parse_lines_drop_blank pre line post matrix :
  adds_no_row line = true ->
  parse_lines (pre ++ line :: post) matrix = parse_lines (pre ++ post) matrix.
Proof.
  intros H. revert matrix. induction pre as [|l pre IH]; intros matrix.
  - now apply parse_lines_blank.
  - cbn [app parse_lines].
    destruct (Py.startswith "+" (Py.strip l)); [apply IH|].
    destruct (Py.contains "|" (Py.strip l)); [|apply IH].
    destruct (parse_fields _ _) as [e|row]; cbn [bind]; [reflexivity|].
    destruct row; apply IH.
Qed.

(** The line loop stops at the first rejected field. *)
Lemma parse_lines_first_bad lines matrix num :
  find bad_field (flat_map fields_of (filter is_data_line lines)) = Some num ->
  exists e, Py.int (Py.strip num) = Raise e /\ parse_lines lines matrix = Raise e.
Proof.
  revert matrix. induction lines as [|line lines IH]; intros matrix;
    [discriminate|].
  cbn [filter]. destruct (is_data_line line) eqn:Hd.
  - cbn [flat_map]. rewrite find_app, parse_lines_data by assumption.
    pose proof (parse_fields_find (fields_of line) []) as Hf.
    destruct (find bad_field (fields_of line)) as [num'|].
    + intros [= ->]. destruct Hf as (e & Hint & ->). now exists e.
    + destruct Hf as [vs ->]. cbn [bind app]. intros H.
      destruct vs; now apply IH.
  - rewrite parse_lines_skip by assumption. apply IH.
Qed.

(** The line loop raises nothing but the error of [int]. *)
Lemma parse_lines_error lines matrix e :
  parse_lines lines matrix = Raise e -> exists s, int_errors s e.
Proof.
  revert matrix. induction lines as [|line lines IH]; intros matrix;
    [discriminate|].
  destruct (is_data_line line) eqn:Hd.
  - rewrite parse_lines_data by assumption.
    pose proof (parse_fields_find (fields_of line) []) as Hf.
    destruct (find bad_field (fields_of line)) as [num'|].
    + destruct Hf as (e' & Hint & ->). cbn [bind]. intros [= <-].
      apply int_error in Hint. eauto.
    + destruct Hf as [vs ->]. cbn [bind app]. destruct vs; apply IH.
  - rewrite parse_lines_skip by assumption. apply IH.
Qed.

(** The width check stops at the first row whose width is not [n]. *)
Lemma check_square_find n rows :
  check_square n rows =
  match find (wrong_width n) rows with
  | Some row => Raise (NotSquare n (length row))
  | None => Ok tt
  end.
Proof.
  induction rows as [|row rows IH]; cbn [check_square find]; [reflexivity|].
  unfold wrong_width at 1. now destruct (negb (length row =? n)%nat).
Qed.

(** What [parse_matrix] does once the line loop has returned [rows]. *)
Lemma parse_matrix_rows text rows :
  parse_lines (lines_of text) [] = Ok rows ->
  parse_matrix text =
  match find (wrong_width (length rows)) rows with
  | Some row => Raise (NotSquare (length rows) (length row))
  | None => Ok rows
  end.
Proof.
  intros H. unfold parse_matrix. fold (lines_of text). rewrite H. cbn [bind].
  destruct rows as [|row rows']; [reflexivity|].
  rewrite check_square_find. now destruct (find _ _).
Qed.

(** What [parse_matrix] returns is square, so [traverse] accepts it. *)
Lemma parse_matrix_square text matrix :
  parse_matrix text = Ok matrix -> square matrix.
Proof.
  intros H.
  destruct (parse_lines (lines_of text) []) as [e|rows] eqn:Hrows.
  - unfold parse_matrix in H. fold (lines_of text) in H.
    rewrite Hrows in H. discriminate.
  - rewrite (parse_matrix_rows text rows Hrows) in H.
    destruct (find (wrong_width (length rows)) rows) eqn:Hfind;
      [discriminate|].
    injection H as <-. apply Forall_forall. intros row Hin.
    pose proof (find_none _ _ Hfind row Hin) as Hw.
    unfold wrong_width in Hw. now apply negb_false_iff, Nat.eqb_eq in Hw.
Qed.

(** * Specification of [traverse] *)

(** C1 (as amended): for the 3x3 matrix [[1,2,3],[8,9,4],[7,6,5]],
    [traverse] returns [1,8,7,6,5,4,3,2,9]: down the left edge, right
    along the bottom, up the right edge, left along the top, and the
    centre cell [9] last. *)
Theorem traverse_3x3 :
  traverse [[1; 2; 3]; [8; 9; 4]; [7; 6; 5]] = Ok [1; 8; 7; 6; 5; 4; 3; 2; 9].
Proof. vm_compute. reflexivity. Qed.

(** C1 as stated fails: the result is not [1,8,7,6,5,4,9,2,3]. *)
Lemma centre_is_not_seventh_3x3 :
  traverse [[1; 2; 3]; [8; 9; 4]; [7; 6; 5]] <> Ok [1; 8; 7; 6; 5; 4; 9; 2; 3].
Proof. vm_compute. discriminate. Qed.

(** C2 (as amended): for the 2x2 matrix [[1,2],[4,3]], [traverse] returns
    [1,4,3,2]: down the left column ([1], [4]), right along the bottom
    row ([3]), up the right column ([2]). *)
Theorem traverse_2x2 :
  traverse [[1; 2]; [4; 3]] = Ok [1; 4; 3; 2].
Proof. vm_compute. reflexivity. Qed.

(** C2 as stated fails: the result is not [4,3,2,1]. *)
Lemma bottom_left_is_not_first_2x2 :
  traverse [[1; 2]; [4; 3]] <> Ok [4; 3; 2; 1].
Proof. vm_compute. discriminate. Qed.

(** C3: on a non-empty square matrix the output starts with the element at
    row 0, column 0, and from dimension 2 on continues with the element at
    row 1, column 0: the walk starts down the left column, not along the
    top row. *)
Theorem traverse_starts_down_left_column (matrix : list (list Z)) :
  square matrix -> matrix <> [] ->
  exists rest,
    traverse matrix = Ok (at_ matrix (0, 0) :: rest) /\
    ((2 <= length matrix)%nat ->
     exists rest', rest = at_ matrix (1, 0) :: rest').
Proof.
  intros Hsq Hne.
  assert (Hn : (0 < length matrix)%nat)
    by (destruct matrix; [congruence|cbn; lia]).
  destruct (traverse_square matrix Hsq) as (cells & Hv & Ht).
  destruct (visited_spec (length matrix)) as (cells' & Hv' & _ & _ & Hring).
  assert (cells' = cells) by congruence. subst cells'.
  destruct (Hring Hn) as [inner Hcells].
  destruct (ring_head 0 (Z.of_nat (length matrix) - 1)) as (rest & Hr & Hsnd);
    [lia|].
  rewrite Hcells, Hr in Ht. cbn [app map] in Ht.
  exists (map (at_ matrix) (rest ++ inner)).
  split; [exact Ht|].
  intros H2. destruct Hsnd as [rest' Hr']; [lia|]. rewrite Hr'.
  cbn [app map]. eexists. reflexivity.
Qed.

Lemma traverse_starts_down_left_column_witness :
  square [[1; 2]; [4; 3]] /\ [[1; 2]; [4; 3]] <> [] /\
  exists rest,
    traverse [[1; 2]; [4; 3]] = Ok (at_ [[1; 2]; [4; 3]] (0, 0) :: rest) /\
    ((2 <= length [[1; 2]; [4; 3]])%nat ->
     exists rest', rest = at_ [[1; 2]; [4; 3]] (1, 0) :: rest').
Proof.
  assert (Hsq : square [[1; 2]; [4; 3]]) by (repeat constructor).
  assert (Hne : [[1; 2]; [4; 3]] <> []) by discriminate.
  split; [exact Hsq|]. split; [exact Hne|].
  exact (traverse_starts_down_left_column [[1; 2]; [4; 3]] Hsq Hne).
Defined.

(** C4: on a square matrix of dimension [n], [traverse] terminates and
    returns [n * n] integers; it reads every cell of the matrix exactly
    once (the index pairs it visits are a permutation of the grid), so its
    output is a permutation of the matrix's cells. *)
Theorem traverse_visits_each_cell_once (matrix : list (list Z)) :
  square matrix ->
  exists cells out,
    visited (length matrix) = Ok cells /\
    traverse matrix = Ok out /\
    out = map (at_ matrix) cells /\
    Permutation cells (grid (length matrix)) /\
    length out = (length matrix * length matrix)%nat /\
    Permutation out (concat matrix).
Proof.
  intros Hsq. destruct (traverse_square matrix Hsq) as (cells & Hv & Ht).
  pose proof (visited_grid _ _ Hv) as Hperm.
  exists cells, (map (at_ matrix) cells).
  split; [exact Hv|]. split; [exact Ht|]. split; [reflexivity|].
  split; [exact Hperm|]. split.
  - rewrite length_map, (Permutation_length Hperm). unfold grid.
    rewrite length_prod. unfold Py.range. rewrite length_map, length_seq. lia.
  - rewrite <- (map_at_grid matrix Hsq). now apply Permutation_map.
Qed.

Lemma traverse_visits_each_cell_once_witness :
  square [[1; 2; 3]; [8; 9; 4]; [7; 6; 5]] /\
  exists cells out,
    visited 3 = Ok cells /\
    traverse [[1; 2; 3]; [8; 9; 4]; [7; 6; 5]] = Ok out /\
    out = map (at_ [[1; 2; 3]; [8; 9; 4]; [7; 6; 5]]) cells /\
    Permutation cells (grid 3) /\
    length out = (3 * 3)%nat /\
    Permutation out (concat [[1; 2; 3]; [8; 9; 4]; [7; 6; 5]]).
Proof.
  assert (Hsq : square [[1; 2; 3]; [8; 9; 4]; [7; 6; 5]]) by (repeat constructor).
  split; [exact Hsq|].
  exact (traverse_visits_each_cell_once [[1; 2; 3]; [8; 9; 4]; [7; 6; 5]] Hsq).
Defined.

(** C10: on a square matrix every index pair that [traverse] reads lies
    within [0..n-1] x [0..n-1], so no read raises [IndexError] and
    [traverse] returns a result. *)
Theorem square_reads_in_bounds (matrix : list (list Z)) :
  square matrix ->
  exists cells,
    visited (length matrix) = Ok cells /\
    traverse matrix = mapM (at_pair (cell matrix)) cells /\
    Forall (fun p => 0 <= fst p < Z.of_nat (length matrix) /\
                     0 <= snd p < Z.of_nat (length matrix)) cells /\
    Forall (fun p => cell matrix (fst p) (snd p) = Ok (at_ matrix p)) cells /\
    exists out, traverse matrix = Ok out.
Proof.
  intros Hsq.
  destruct (visited_spec (length matrix)) as (cells & Hv & _ & Hin & _).
  exists cells. split; [exact Hv|].
  split; [exact (traverse_reads matrix cells Hv)|].
  assert (Hb : Forall (fun p => 0 <= fst p < Z.of_nat (length matrix) /\
                                0 <= snd p < Z.of_nat (length matrix)) cells).
  { apply Forall_forall. intros [i j] Hp. now apply Hin. }
  split; [exact Hb|]. split.
  - apply Forall_forall. intros [i j] Hp. rewrite Forall_forall in Hb.
    destruct (Hb _ Hp). now apply cell_square.
  - destruct (traverse_square matrix Hsq) as (cells' & _ & Ht). eauto.
Qed.

Lemma square_reads_in_bounds_witness :
  square [[1; 2]; [4; 3]] /\
  exists cells,
    visited 2 = Ok cells /\
    traverse [[1; 2]; [4; 3]] =
      mapM (at_pair (cell [[1; 2]; [4; 3]])) cells /\
    Forall (fun p => 0 <= fst p < 2 /\ 0 <= snd p < 2) cells /\
    Forall (fun p => cell [[1; 2]; [4; 3]] (fst p) (snd p)
                     = Ok (at_ [[1; 2]; [4; 3]] p)) cells /\
    exists out, traverse [[1; 2]; [4; 3]] = Ok out.
Proof.
  assert (Hsq : square [[1; 2]; [4; 3]]) by (repeat constructor).
  split; [exact Hsq|].
  exact (square_reads_in_bounds [[1; 2]; [4; 3]] Hsq).
Defined.

(** * Specification of [parse_matrix] *)

(** C5: a text without data rows (every line is a border line, a line
    without separator, or a data line without fields) parses to the empty
    matrix, and [traverse] maps the empty matrix to the empty sequence;
    neither raises. *)
Theorem parse_no_data_rows (text : string) :
  forallb adds_no_row (lines_of text) = true ->
  parse_matrix text = Ok [] /\
  traverse (@nil (list Z)) = Ok [] /\
  (matrix <- parse_matrix text ;; traverse matrix) = Ok [].
Proof.
  intros H.
  pose proof (parse_lines_no_rows (lines_of text) [] H) as Hrows.
  rewrite (parse_matrix_rows text [] Hrows). cbn. auto.
Qed.

Lemma parse_no_data_rows_witness :
  forallb adds_no_row (lines_of ("+---+" ++ nl ++ nl ++ "+---+")%string) = true /\
  parse_matrix ("+---+" ++ nl ++ nl ++ "+---+")%string = Ok [] /\
  traverse (@nil (list Z)) = Ok [] /\
  (matrix <- parse_matrix ("+---+" ++ nl ++ nl ++ "+---+")%string ;;
   traverse matrix) = Ok [].
Proof.
  split; [reflexivity|].
  apply (parse_no_data_rows ("+---+" ++ nl ++ nl ++ "+---+")%string).
  reflexivity.
Defined.

(** C6 (as amended): if [int] rejects some non-empty trimmed field of a
    data line, [parse_matrix] raises the [ValueError] that [int] raises on
    the first such field in reading order: the invalid literal error, which
    shows the repr of that trimmed field cut to 200 characters, or, for a
    field with more than 4300 digits, the digit limit error with the
    number of its digits.  No matrix is returned. *)
Theorem parse_rejects_bad_field (text line num : string) :
  In line (lines_of text) -> is_data_line line = true ->
  In num (fields_of line) -> bad_field num = true ->
  exists num' e,
    first_bad_field text = Some num' /\
    parse_matrix text = Raise e /\
    (e = InvalidLiteral (Py.shown (Py.strip num')) \/
     e = TooManyDigits 4300 (Py.digit_count (Py.strip num')) /\
     (4300 < Py.digit_count (Py.strip num'))%nat).
Proof.
  intros Hline Hd Hnum Hbad. unfold first_bad_field.
  destruct (find bad_field _) as [num'|] eqn:Hfind.
  - destruct (parse_lines_first_bad _ [] _ Hfind) as (e & Hint & Hp).
    exists num', e. split; [reflexivity|]. split.
    + unfold parse_matrix. fold (lines_of text). now rewrite Hp.
    + exact (int_error _ _ Hint).
  - exfalso. rewrite (find_none _ _ Hfind num) in Hbad; [discriminate|].
    apply in_flat_map. exists line. split; [|assumption].
    apply filter_In. now split.
Qed.

Lemma parse_rejects_bad_field_witness :
  In "| 1 | x |"%string (lines_of ("| 1 | x |" ++ nl ++ "| 2 | 3 |")%string) /\
  is_data_line "| 1 | x |" = true /\
  In " x "%string (fields_of "| 1 | x |") /\ bad_field " x " = true /\
  exists num' e,
    first_bad_field ("| 1 | x |" ++ nl ++ "| 2 | 3 |")%string = Some num' /\
    parse_matrix ("| 1 | x |" ++ nl ++ "| 2 | 3 |")%string = Raise e /\
    (e = InvalidLiteral (Py.shown (Py.strip num')) \/
     e = TooManyDigits 4300 (Py.digit_count (Py.strip num')) /\
     (4300 < Py.digit_count (Py.strip num'))%nat).
Proof.
  assert (H1 : In "| 1 | x |"%string
                  (lines_of ("| 1 | x |" ++ nl ++ "| 2 | 3 |")%string))
    by (left; reflexivity).
  assert (H2 : is_data_line "| 1 | x |" = true) by reflexivity.
  assert (H3 : In " x "%string (fields_of "| 1 | x |"))
    by (right; left; reflexivity).
  assert (H4 : bad_field " x " = true) by reflexivity.
  split; [exact H1|]. split; [exact H2|]. split; [exact H3|].
  split; [exact H4|].
  exact (parse_rejects_bad_field _ _ _ H1 H2 H3 H4).
Defined.

(** C6 as stated fails: the error shows the trimmed field only.  Two
    texts whose rejected fields differ in their untrimmed text, in their
    line and in the position of that line raise the same error, so the
    error determines neither the untrimmed field nor its line. *)
Lemma parse_error_omits_line_and_raw_field :
  let text1 := "| x |"%string in
  let text2 := ("+---+" ++ nl ++ "|x|1|")%string in
  lines_of text1 = ["| x |"%string] /\
  lines_of text2 = ["+---+"; "|x|1|"]%string /\
  fields_of "| x |" = [" x "%string] /\
  fields_of "|x|1|" = ["x"; "1"]%string /\
  parse_matrix text1 = Raise (InvalidLiteral "'x'") /\
  parse_matrix text2 = Raise (InvalidLiteral "'x'") /\
  ~ (exists line_of : exn -> string,
       forall text line num,
         In line (lines_of text) -> is_data_line line = true ->
         In num (fields_of line) -> bad_field num = true ->
         exists e, parse_matrix text = Raise e /\ line_of e = line) /\
  ~ (exists raw_of : exn -> string,
       forall text line num,
         In line (lines_of text) -> is_data_line line = true ->
         In num (fields_of line) -> bad_field num = true ->
         exists e, parse_matrix text = Raise e /\ raw_of e = num).
Proof.
  cbv zeta.
  assert (E1 : parse_matrix "| x |" = Raise (InvalidLiteral "'x'"))
    by (vm_compute; reflexivity).
  assert (E2 : parse_matrix ("+---+" ++ nl ++ "|x|1|")
               = Raise (InvalidLiteral "'x'")) by (vm_compute; reflexivity).
  do 4 (split; [vm_compute; reflexivity|]).
  split; [exact E1|]. split; [exact E2|]. split.
  - intros [line_of H].
    destruct (H "| x |"%string "| x |"%string " x "%string) as (e1 & He1 & Hl1);
      [left; reflexivity|reflexivity|left; reflexivity|reflexivity|].
    destruct (H ("+---+" ++ nl ++ "|x|1|")%string "|x|1|"%string "x"%string)
      as (e2 & He2 & Hl2);
      [right; left; reflexivity|reflexivity|left; reflexivity|reflexivity|].
    rewrite E1 in He1. rewrite E2 in He2.
    injection He1 as <-. injection He2 as <-.
    rewrite Hl1 in Hl2. discriminate.
  - intros [raw_of H].
    destruct (H "| x |"%string "| x |"%string " x "%string) as (e1 & He1 & Hl1);
      [left; reflexivity|reflexivity|left; reflexivity|reflexivity|].
    destruct (H ("+---+" ++ nl ++ "|x|1|")%string "|x|1|"%string "x"%string)
      as (e2 & He2 & Hl2);
      [right; left; reflexivity|reflexivity|left; reflexivity|reflexivity|].
    rewrite E1 in He1. rewrite E2 in He2.
    injection He1 as <-. injection He2 as <-.
    rewrite Hl1 in Hl2. discriminate.
Qed.

(** C7: once every line has been read, if some retained row's width
    differs from the number [n] of retained rows, [parse_matrix] raises the
    [ValueError] that names [n] as the expected and that row's width as the
    actual column count; no matrix is returned. *)
Theorem parse_rejects_wrong_width (text : string) (rows : list (list Z)) :
  parse_lines (lines_of text) [] = Ok rows ->
  (exists row, In row rows /\ length row <> length rows) ->
  exists row,
    In row rows /\ length row <> length rows /\
    parse_matrix text = Raise (NotSquare (length rows) (length row)).
Proof.
  intros Hrows (row & Hin & Hlen).
  rewrite (parse_matrix_rows text rows Hrows).
  destruct (find (wrong_width (length rows)) rows) as [row'|] eqn:Hfind.
  - apply find_some in Hfind as [Hin' Hw]. exists row'.
    split; [assumption|]. split; [|reflexivity].
    unfold wrong_width in Hw. apply negb_true_iff, Nat.eqb_neq in Hw.
    exact Hw.
  - exfalso. pose proof (find_none _ _ Hfind row Hin) as Hw.
    unfold wrong_width in Hw. apply negb_false_iff, Nat.eqb_eq in Hw.
    contradiction.
Qed.

Lemma parse_rejects_wrong_width_witness :
  parse_lines (lines_of ("| 1 | 2 |" ++ nl ++ "| 3 | 4 | 5 |")%string) []
  = Ok [[1; 2]; [3; 4; 5]] /\
  (exists row, In row [[1; 2]; [3; 4; 5]] /\
               length row <> length [[1; 2]; [3; 4; 5]]) /\
  exists row,
    In row [[1; 2]; [3; 4; 5]] /\
    length row <> length [[1; 2]; [3; 4; 5]] /\
    parse_matrix ("| 1 | 2 |" ++ nl ++ "| 3 | 4 | 5 |")%string
    = Raise (NotSquare (length [[1; 2]; [3; 4; 5]]) (length row)).
Proof.
  assert (H1 : parse_lines
                 (lines_of ("| 1 | 2 |" ++ nl ++ "| 3 | 4 | 5 |")%string) []
               = Ok [[1; 2]; [3; 4; 5]]) by reflexivity.
  assert (H2 : exists row, In row [[1; 2]; [3; 4; 5]] /\
                           length row <> length [[1; 2]; [3; 4; 5]]).
  { exists [3; 4; 5]. split; [right; left; reflexivity|]. cbn. lia. }
  split; [exact H1|]. split; [exact H2|].
  exact (parse_rejects_wrong_width _ _ H1 H2).
Defined.

(** C8 (as amended): when [parse_matrix] raises the width error, the
    expected column count it names is the number of retained rows, and the
    actual count is the width of the first row whose width differs from
    that number. *)
Theorem shape_error_names_row_count (text : string) (n cols : nat) :
  parse_matrix text = Raise (NotSquare n cols) ->
  exists rows row,
    parse_lines (lines_of text) [] = Ok rows /\
    n = length rows /\
    find (wrong_width n) rows = Some row /\
    cols = length row.
Proof.
  intros H.
  destruct (parse_lines (lines_of text) []) as [e|rows] eqn:Hrows.
  - unfold parse_matrix in H. fold (lines_of text) in H.
    rewrite Hrows in H. cbn [bind] in H.
    apply parse_lines_error in Hrows as [s [-> | [-> _]]]; discriminate.
  - rewrite (parse_matrix_rows text rows Hrows) in H.
    destruct (find (wrong_width (length rows)) rows) as [row|] eqn:Hfind;
      [|discriminate].
    injection H as <- <-. now exists rows, row.
Qed.

Lemma shape_error_names_row_count_witness :
  parse_matrix ("| 1 | 2 |" ++ nl ++ "| 3 | 4 | 5 |")%string
  = Raise (NotSquare 2 3) /\
  exists rows row,
    parse_lines (lines_of ("| 1 | 2 |" ++ nl ++ "| 3 | 4 | 5 |")%string) []
    = Ok rows /\
    2%nat = length rows /\
    find (wrong_width 2) rows = Some row /\
    3%nat = length row.
Proof.
  assert (H : parse_matrix ("| 1 | 2 |" ++ nl ++ "| 3 | 4 | 5 |")%string
              = Raise (NotSquare 2 3)) by reflexivity.
  split; [exact H|].
  exact (shape_error_names_row_count _ _ _ H).
Defined.

(** C8 as stated fails: with rows of widths 2, 3 and 3 the error names 3
    (the number of rows) as expected and 2 (the width of the first row) as
    actual, not the first row's width as expected. *)
Lemma shape_error_expected_is_not_first_row_width :
  exists first rest n cols,
    parse_lines
      (lines_of ("| 1 | 2 |" ++ nl ++ "| 3 | 4 | 5 |" ++ nl ++ "| 6 | 7 | 8 |")%string)
      [] = Ok (first :: rest) /\
    parse_matrix
      ("| 1 | 2 |" ++ nl ++ "| 3 | 4 | 5 |" ++ nl ++ "| 6 | 7 | 8 |")%string
    = Raise (NotSquare n cols) /\
    n <> length first /\ n = 3%nat /\ cols = 2%nat /\ length first = 2%nat.
Proof.
  exists [1; 2], [[3; 4; 5]; [6; 7; 8]], 3%nat, 2%nat.
  repeat split; try (vm_compute; reflexivity). cbn. lia.
Qed.

(** C9: a data line (one containing the separator) whose fields are all
    empty after trimming is discarded, wherever it stands: the line loop
    returns what it returns without that line, and the text parses like
    its other lines alone, so the line adds no row, does not count towards
    the number of rows, and raises nothing. *)
Theorem blank_data_line_is_discarded (pre post : list string) (line : string) :
  Py.contains "|" (Py.strip line) = true ->
  all_fields_blank line = true ->
  (forall matrix,
     parse_lines (pre ++ line :: post) matrix = parse_lines (pre ++ post) matrix) /\
  (forall text,
     lines_of text = pre ++ line :: post ->
     parse_matrix text = parse_matrix_lines (pre ++ post)).
Proof.
  intros _ Hblank.
  assert (Hno : adds_no_row line = true)
    by (unfold adds_no_row; rewrite Hblank; apply orb_true_r).
  split.
  - intros matrix. now apply parse_lines_drop_blank.
  - intros text Ht. unfold parse_matrix, parse_matrix_lines.
    fold (lines_of text). rewrite Ht.
    now rewrite parse_lines_drop_blank.
Qed.

Lemma blank_data_line_is_discarded_witness :
  Py.contains "|" (Py.strip "||") = true /\
  all_fields_blank "||" = true /\
  lines_of ("||" ++ nl ++ " | 1 |")%string = [] ++ "||"%string :: [" | 1 |"%string] /\
  parse_matrix_lines ([] ++ [" | 1 |"%string]) = Ok [[1]] /\
  (forall matrix,
     parse_lines ([] ++ "||"%string :: [" | 1 |"%string]) matrix
     = parse_lines ([] ++ [" | 1 |"%string]) matrix) /\
  (forall text,
     lines_of text = [] ++ "||"%string :: [" | 1 |"%string] ->
     parse_matrix text = parse_matrix_lines ([] ++ [" | 1 |"%string])).
Proof.
  assert (H1 : Py.contains "|" (Py.strip "||") = true) by reflexivity.
  assert (H2 : all_fields_blank "||" = true) by reflexivity.
  split; [exact H1|]. split; [exact H2|].
  split; [reflexivity|]. split; [reflexivity|].
  exact (blank_data_line_is_discarded [] [" | 1 |"%string] "||"%string H1 H2).
Defined.

(** * Further properties of [traverse] *)

Lemma rings_empty a b : b < a -> rings a b = [].
Proof.
  intros H. unfold rings.
  assert (E : (b - a + 2) / 2 <= 0).
  { apply Z.lt_succ_r. apply Z.div_lt_upper_bound; lia. }
  now replace (Z.to_nat ((b - a + 2) / 2)) with O by lia.
Qed.

Lemma rings_step a b : a <= b -> rings a b = ring a b ++ rings (a + 1) (b - 1).
Proof.
  intros H. unfold rings.
  replace (b - a + 2) with ((b - 1 - (a + 1) + 2) + 1 * 2) by lia.
  rewrite Z.div_add by lia.
  assert (0 <= (b - 1 - (a + 1) + 2) / 2) by (apply Z.div_pos; lia).
  replace (Z.to_nat ((b - 1 - (a + 1) + 2) / 2 + 1))
    with (S (Z.to_nat ((b - 1 - (a + 1) + 2) / 2))) by lia.
  cbn [seq flat_map]. rewrite Z.add_0_r, Z.sub_0_r. f_equal.
  rewrite <- seq_shift, flat_map_concat_map, map_map, <- flat_map_concat_map.
  apply flat_map_ext. intros d. f_equal; lia.
Qed.

(** The loop on a square reads the rings, one pass per ring. *)
Lemma spiral_loop_rings (k : nat) a b iacc :
  b - a + 1 <= Z.of_nat k ->
  spiral_loop coords (mkState a b a b iacc) = Ok (iacc ++ rings a b).
Proof.
  revert a b iacc. induction k as [|k IH]; intros a b iacc Hk.
  - rewrite spiral_loop_eq. unfold loop_cond; cbn [top bottom].
    destruct (Z.leb_spec a b); [lia|]. cbn [andb result].
    now rewrite rings_empty, app_nil_r by lia.
  - rewrite spiral_loop_eq. unfold loop_cond; cbn [top bottom left right].
    destruct (Z.leb_spec a b) as [Hab|Hab]; cbn [andb result].
    2:{ now rewrite rings_empty, app_nil_r by lia. }
    rewrite loop_body_square by assumption. cbn [bind].
    rewrite rings_step by assumption.
    destruct (Z.ltb_spec a b) as [Hlt|Hge].
    + rewrite IH by lia. now rewrite app_assoc.
    + assert (b = a) by lia. subst b.
      rewrite spiral_loop_eq.
      unfold loop_cond; cbn [top bottom left right result].
      destruct (Z.leb_spec a (a - 1)); [lia|]. cbn [andb].
      now rewrite rings_empty, app_nil_r by lia.
Qed.

Lemma visited_spiral_order (n : nat) : visited n = Ok (spiral_order n).
Proof.
  unfold visited, spiral_order.
  now rewrite (spiral_loop_rings n) by lia.
Qed.

Lemma mapM_fail {A B} (f : A -> outcome B) l e :
  mapM f l = Raise e -> exists a, In a l /\ f a = Raise e.
Proof.
  induction l as [|a l IH]; cbn [mapM]; [discriminate|].
  destruct (f a) as [e'|b] eqn:Hfa; cbn [bind].
  - intros [= <-]. exists a. split; [now left|assumption].
  - destruct (mapM f l) as [e'|bs]; cbn [bind]; [|discriminate].
    intros [= <-]. destruct IH as (a' & Hin & Ha'); [reflexivity|].
    exists a'. split; [now right|assumption].
Qed.

Lemma mapM_all_Ok {A B} (f : A -> outcome B) l vs :
  mapM f l = Ok vs -> forall a, In a l -> exists v, f a = Ok v.
Proof.
  revert vs. induction l as [|a l IH]; cbn [mapM]; intros vs H x Hx;
    [destruct Hx|].
  destruct (f a) as [e|b] eqn:Hfa; cbn [bind] in H; [discriminate|].
  destruct (mapM f l) as [e|bs]; cbn [bind] in H; [discriminate|].
  destruct Hx as [<-|Hx]; [eauto|]. now apply (IH bs).
Qed.

Lemma mapM_fmap {A B C} (g : A -> outcome B) (f : B -> C) l :
  mapM (fun a => fmap f (g a)) l = fmap (map f) (mapM g l).
Proof.
  induction l as [|a l IH]; cbn [mapM]; [reflexivity|].
  rewrite IH. unfold fmap.
  destruct (g a) as [e|b]; cbn [bind]; [reflexivity|].
  destruct (mapM g l) as [e|bs]; reflexivity.
Qed.

(** Indexing raises nothing but [IndexError]. *)
Lemma index_error {A} (l : list A) i e : Py.index l i = Raise e -> e = IndexError.
Proof.
  unfold Py.index. destruct (_ || _); [now intros [= <-]|].
  destruct (nth_error _ _); [discriminate|now intros [= <-]].
Qed.

Lemma index_out_of_range {A} (l : list A) (i : Z) :
  Z.of_nat (length l) <= i -> Py.index l i = Raise IndexError.
Proof.
  intros Hi. unfold Py.index.
  destruct (Z.ltb_spec i 0); [lia|].
  destruct (Z.ltb_spec i 0); [lia|].
  destruct (Z.leb_spec (Z.of_nat (length l)) i); [reflexivity|lia].
Qed.

Lemma index_map {A B} (f : A -> B) (l : list A) i :
  Py.index (map f l) i = fmap f (Py.index l i).
Proof.
  unfold Py.index, fmap. rewrite length_map.
  destruct (_ || _); [reflexivity|].
  rewrite nth_error_map. now destruct (nth_error l _).
Qed.

Lemma cell_error {A} (matrix : list (list A)) i j e :
  cell matrix i j = Raise e -> e = IndexError.
Proof.
  unfold cell. destruct (Py.index matrix i) as [e'|row] eqn:Hrow; cbn [bind].
  - intros [= <-]. now apply index_error in Hrow.
  - apply index_error.
Qed.

Lemma cell_map {A B} (f : A -> B) (matrix : list (list A)) i j :
  cell (map (map f) matrix) i j = fmap f (cell matrix i j).
Proof.
  unfold cell. rewrite index_map. unfold fmap at 1.
  destruct (Py.index matrix i) as [e|row]; cbn [bind]; [reflexivity|].
  apply index_map.
Qed.

(** A row with at least [j + 1] elements has a column [j]. *)
Lemma cell_in_row (matrix : list (list Z)) i j :
  0 <= i < Z.of_nat (length matrix) ->
  0 <= j < Z.of_nat (length (nth (Z.to_nat i) matrix [])) ->
  cell matrix i j = Ok (at_ matrix (i, j)).
Proof.
  intros Hi Hj. unfold cell, at_; cbn [fst snd].
  rewrite (index_in_range matrix i []) by assumption. cbn [bind].
  now apply index_in_range.
Qed.

Lemma cell_past_row (matrix : list (list Z)) i j :
  0 <= i < Z.of_nat (length matrix) ->
  Z.of_nat (length (nth (Z.to_nat i) matrix [])) <= j ->
  cell matrix i j = Raise IndexError.
Proof.
  intros Hi Hj. unfold cell.
  rewrite (index_in_range matrix i []) by assumption. cbn [bind].
  now apply index_out_of_range.
Qed.

Lemma in_spiral_order (n : nat) i j :
  In (i, j) (spiral_order n) <-> 0 <= i < Z.of_nat n /\ 0 <= j < Z.of_nat n.
Proof.
  destruct (visited_spec n) as (cells & Hv & _ & Hin & _).
  rewrite visited_spiral_order in Hv. injection Hv as <-. apply Hin.
Qed.

(** Rows that are at least as long as the matrix is high. *)
Lemma traverse_wide (matrix : list (list Z)) :
  Forall (fun row => (length matrix <= length row)%nat) matrix ->
  traverse matrix = Ok (map (at_ matrix) (spiral_order (length matrix))).
Proof.
  intros Hw.
  rewrite (traverse_reads matrix _ (visited_spiral_order (length matrix))).
  rewrite <- mapM_Ok. apply mapM_ext_in. intros [i j] Hp.
  apply in_spiral_order in Hp. unfold at_pair; cbn [fst snd].
  apply cell_in_row; [lia|].
  rewrite Forall_forall in Hw.
  assert ((length matrix <= length (nth (Z.to_nat i) matrix []))%nat)
    by (apply Hw, nth_In; lia).
  lia.
Qed.

Lemma traverse_short_row (matrix : list (list Z)) row :
  In row matrix -> (length row < length matrix)%nat ->
  traverse matrix = Raise IndexError.
Proof.
  intros Hin Hlen.
  rewrite (traverse_reads matrix _ (visited_spiral_order (length matrix))).
  destruct (mapM _ _) as [e|out] eqn:Hm.
  - apply mapM_fail in Hm as ([i j] & _ & Hc). unfold at_pair in Hc.
    now apply cell_error in Hc as ->.
  - exfalso. apply (In_nth _ _ []) in Hin as (k & Hk & Hrow).
    destruct (mapM_all_Ok _ _ _ Hm (Z.of_nat k, Z.of_nat (length matrix) - 1))
      as [v Hv].
    { apply in_spiral_order. lia. }
    unfold at_pair in Hv; cbn [fst snd] in Hv.
    rewrite cell_past_row in Hv; [discriminate|lia|].
    rewrite Nat2Z.id, Hrow. lia.
Qed.

Lemma rings_last (k : nat) a b :
  b - a + 1 <= Z.of_nat k -> a <= b ->
  exists front, rings a b = front ++ [((a + b) / 2, (a + b + 1) / 2)].
Proof.
  revert a b. induction k as [|k IH]; intros a b Hk Hab; [lia|].
  rewrite rings_step by assumption.
  destruct (Z.eq_dec b a) as [->|Hne].
  - exists []. rewrite rings_empty by lia.
    unfold ring. rewrite (range_cons a) by lia.
    rewrite !range_nil, !range_down_nil by lia. cbn [map app].
    replace ((a + a) / 2) with a by (Z.div_mod_to_equations; lia).
    replace ((a + a + 1) / 2) with a by (Z.div_mod_to_equations; lia). reflexivity.
  - destruct (Z.eq_dec b (a + 1)) as [->|Hne'].
    + rewrite rings_empty by lia.
      exists [(a, a); (a + 1, a); (a + 1, a + 1)].
      unfold ring. rewrite (range_cons a), (range_cons (a + 1)) by lia.
      rewrite (range_nil (a + 1 + 1)) by lia.
      unfold Py.range_down.
      replace (Z.to_nat (a + 1 - 1 - (a - 1))) with 1%nat by lia.
      replace (Z.to_nat (a + 1 - 1 - a)) with 0%nat by lia.
      cbn [seq map app].
      replace (a + 1 - 1 - Z.of_nat 0) with a by lia.
      replace ((a + (a + 1)) / 2) with a by (Z.div_mod_to_equations; lia).
      replace ((a + (a + 1) + 1) / 2) with (a + 1) by (Z.div_mod_to_equations; lia). reflexivity.
    + destruct (IH (a + 1) (b - 1)) as [front Hf]; [lia|lia|].
      exists (ring a b ++ front). rewrite Hf, <- app_assoc.
      replace (a + 1 + (b - 1)) with (a + b) by lia. reflexivity.
Qed.

(** X1: whenever every row has at least as many elements as there are
    rows (so on every square matrix), [traverse] returns the cells in
    spiral order: ring after ring from the outside in, each ring down its
    left column, right along its bottom row, up its right column and left
    along its top row. *)
Theorem traverse_in_spiral_order (matrix : list (list Z)) :
  Forall (fun row => (length matrix <= length row)%nat) matrix ->
  visited (length matrix) = Ok (spiral_order (length matrix)) /\
  traverse matrix = Ok (map (at_ matrix) (spiral_order (length matrix))).
Proof.
  intros Hw. split; [apply visited_spiral_order|now apply traverse_wide].
Qed.

Lemma traverse_in_spiral_order_witness :
  Forall (fun row => (length [[1; 2; 3]; [4; 5; 6]] <= length row)%nat)
         [[1; 2; 3]; [4; 5; 6]] /\
  visited 2 = Ok (spiral_order 2) /\
  traverse [[1; 2; 3]; [4; 5; 6]]
  = Ok (map (at_ [[1; 2; 3]; [4; 5; 6]]) (spiral_order 2)).
Proof.
  assert (Hw : Forall (fun row => (length [[1; 2; 3]; [4; 5; 6]] <= length row)%nat)
                      [[1; 2; 3]; [4; 5; 6]])
    by (repeat constructor).
  split; [exact Hw|].
  exact (traverse_in_spiral_order [[1; 2; 3]; [4; 5; 6]] Hw).
Defined.

(** X2: [traverse] fails exactly when some row is shorter than the number
    of rows, and then with [IndexError]; it raises nothing else. *)
Theorem traverse_fails_iff_short_row (matrix : list (list Z)) :
  (traverse matrix = Raise IndexError <->
   exists row, In row matrix /\ (length row < length matrix)%nat) /\
  (forall e, traverse matrix = Raise e -> e = IndexError).
Proof.
  assert (Hdec : forall row : list Z,
             {(length matrix <= length row)%nat} +
             {~ (length matrix <= length row)%nat})
    by (intros; apply le_dec).
  destruct (Forall_Exists_dec _ Hdec matrix) as [Hw|Hs].
  - rewrite (traverse_wide matrix Hw). split; [|discriminate].
    split; [discriminate|]. intros (row & Hin & Hlen).
    rewrite Forall_forall in Hw. specialize (Hw row Hin). lia.
  - apply Exists_exists in Hs as (row & Hin & Hlen).
    rewrite (traverse_short_row matrix row Hin) by lia.
    split; [|now intros e [= <-]].
    split; [|reflexivity]. intros _. exists row. split; [assumption|lia].
Qed.

(** X3: columns beyond the number of rows are never read: a matrix whose
    rows are all at least that long is traversed like its leading square
    block. *)
Theorem traverse_ignores_extra_columns (matrix : list (list Z)) :
  Forall (fun row => (length matrix <= length row)%nat) matrix ->
  square (map (firstn (length matrix)) matrix) /\
  traverse matrix = traverse (map (firstn (length matrix)) matrix).
Proof.
  intros Hw. set (n := length matrix).
  assert (Hsq : square (map (firstn n) matrix)).
  { unfold square. rewrite length_map. apply Forall_map.
    revert Hw. apply Forall_impl. intros row Hrow.
    rewrite length_firstn. fold n in Hrow. lia. }
  split; [exact Hsq|].
  rewrite (traverse_wide matrix Hw), traverse_wide.
  2:{ revert Hsq. unfold square. apply Forall_impl. intros row ->. lia. }
  rewrite length_map. fold n. f_equal. apply map_ext_in.
  intros [i j] Hp. apply in_spiral_order in Hp. unfold at_; cbn [fst snd].
  rewrite <- (firstn_nil Z n) at 2. rewrite map_nth.
  rewrite nth_firstn. destruct (Nat.ltb_spec (Z.to_nat j) n); [reflexivity|lia].
Qed.

Lemma traverse_ignores_extra_columns_witness :
  Forall (fun row => (length [[1; 2; 3]; [4; 5; 6]] <= length row)%nat)
         [[1; 2; 3]; [4; 5; 6]] /\
  square (map (firstn (length [[1; 2; 3]; [4; 5; 6]])) [[1; 2; 3]; [4; 5; 6]]) /\
  traverse [[1; 2; 3]; [4; 5; 6]]
  = traverse (map (firstn (length [[1; 2; 3]; [4; 5; 6]]))
                  [[1; 2; 3]; [4; 5; 6]]).
Proof.
  assert (Hw : Forall (fun row => (length [[1; 2; 3]; [4; 5; 6]] <= length row)%nat)
                      [[1; 2; 3]; [4; 5; 6]])
    by (repeat constructor).
  split; [exact Hw|].
  exact (traverse_ignores_extra_columns [[1; 2; 3]; [4; 5; 6]] Hw).
Defined.

(** X4: on a non-empty square matrix of dimension [n] the last element of
    the output is the cell at row [(n-1)/2], column [n/2]: the centre cell
    when [n] is odd. *)
Theorem traverse_ends_in_the_middle (matrix : list (list Z)) :
  square matrix -> matrix <> [] ->
  let n := Z.of_nat (length matrix) in
  exists front,
    traverse matrix = Ok (front ++ [at_ matrix ((n - 1) / 2, n / 2)]) /\
    cell matrix ((n - 1) / 2) (n / 2) = Ok (at_ matrix ((n - 1) / 2, n / 2)).
Proof.
  intros Hsq Hne n.
  assert (Hn : 0 < n) by (destruct matrix; [congruence|cbn; lia]).
  assert (Hw : Forall (fun row => (length matrix <= length row)%nat) matrix).
  { revert Hsq. unfold square. apply Forall_impl. intros row ->. lia. }
  rewrite (traverse_wide matrix Hw). unfold spiral_order. fold n.
  destruct (rings_last (length matrix) 0 (n - 1)) as [front Hf];
    [lia|lia|].
  rewrite Hf, map_app. cbn [map].
  replace (0 + (n - 1)) with (n - 1) by lia.
  replace (n - 1 + 1) with n by lia.
  exists (map (at_ matrix) front). split; [reflexivity|].
  apply cell_square; [assumption| |]; fold n; Z.div_mod_to_equations; lia.
Qed.

Lemma traverse_ends_in_the_middle_witness :
  square [[1; 2; 3]; [8; 9; 4]; [7; 6; 5]] /\
  [[1; 2; 3]; [8; 9; 4]; [7; 6; 5]] <> [] /\
  exists front,
    traverse [[1; 2; 3]; [8; 9; 4]; [7; 6; 5]]
    = Ok (front ++ [at_ [[1; 2; 3]; [8; 9; 4]; [7; 6; 5]] ((3 - 1) / 2, 3 / 2)]) /\
    cell [[1; 2; 3]; [8; 9; 4]; [7; 6; 5]] ((3 - 1) / 2) (3 / 2)
    = Ok (at_ [[1; 2; 3]; [8; 9; 4]; [7; 6; 5]] ((3 - 1) / 2, 3 / 2)).
Proof.
  assert (Hsq : square [[1; 2; 3]; [8; 9; 4]; [7; 6; 5]]) by (repeat constructor).
  assert (Hne : [[1; 2; 3]; [8; 9; 4]; [7; 6; 5]] <> []) by discriminate.
  split; [exact Hsq|]. split; [exact Hne|].
  exact (traverse_ends_in_the_middle [[1; 2; 3]; [8; 9; 4]; [7; 6; 5]] Hsq Hne).
Defined.

(** X5: the order of the traversal does not depend on the values: mapping
    a function over the cells commutes with [traverse], failures
    included. *)
Theorem traverse_map {A B} (f : A -> B) (matrix : list (list A)) :
  traverse (map (map f) matrix) = fmap (map f) (traverse matrix).
Proof.
  pose proof (visited_spiral_order (length matrix)) as Hv.
  rewrite (traverse_reads matrix _ Hv).
  rewrite <- (length_map (map f)) in Hv.
  rewrite (traverse_reads (map (map f) matrix) _ Hv).
  rewrite length_map, <- mapM_fmap. apply mapM_ext_in.
  intros [i j] _. unfold at_pair. apply cell_map.
Qed.

(** * Further properties of [parse_matrix] *)

Lemma parse_fields_mapM numbers row :
  parse_fields numbers row =
  fmap (app row) (mapM Py.int (filter Py.truthy (map Py.strip numbers))).
Proof.
  revert row. induction numbers as [|num numbers IH]; intros row.
  - cbn. now rewrite app_nil_r.
  - cbn [parse_fields map filter].
    destruct (Py.truthy (Py.strip num)); [|apply IH].
    cbn [mapM]. unfold fmap.
    destruct (Py.int (Py.strip num)) as [e|v]; cbn [bind]; [reflexivity|].
    rewrite IH. unfold fmap.
    destruct (mapM Py.int _) as [e|vs]; cbn [bind]; [reflexivity|].
    now rewrite <- app_assoc.
Qed.

Lemma parse_fields_row_of line : parse_fields (fields_of line) [] = row_of line.
Proof.
  rewrite parse_fields_mapM. unfold row_of, fmap.
  now destruct (mapM Py.int _).
Qed.

Lemma parse_lines_mapM lines matrix :
  parse_lines lines matrix =
  fmap (fun rows => matrix ++ filter nonempty rows)
       (mapM row_of (filter is_data_line lines)).
Proof.
  revert matrix. induction lines as [|line lines IH]; intros matrix.
  - cbn. now rewrite app_nil_r.
  - cbn [filter]. destruct (is_data_line line) eqn:Hd.
    + rewrite parse_lines_data, parse_fields_row_of by assumption.
      cbn [mapM]. unfold fmap.
      destruct (row_of line) as [e|row]; cbn [bind]; [reflexivity|].
      destruct row as [|v row]; rewrite IH; unfold fmap;
        destruct (mapM row_of _) as [e|rows]; cbn [bind filter nonempty];
        try reflexivity.
      now rewrite <- app_assoc.
    + rewrite parse_lines_skip by assumption. apply IH.
Qed.

(** The line loop, by the first rejected field. *)
Lemma parse_lines_find lines matrix :
  match find bad_field (flat_map fields_of (filter is_data_line lines)) with
  | Some num => exists e, Py.int (Py.strip num) = Raise e /\
                          parse_lines lines matrix = Raise e
  | None => exists rows,
      parse_lines lines matrix = Ok (matrix ++ rows) /\
      Forall (fun row => row <> []) rows
  end.
Proof.
  destruct (find bad_field _) as [num|] eqn:Hfind;
    [now apply parse_lines_first_bad|].
  revert matrix Hfind. induction lines as [|line lines IH]; intros matrix Hfind.
  - exists []. split; [cbn; now rewrite app_nil_r|constructor].
  - cbn [filter] in Hfind. destruct (is_data_line line) eqn:Hd.
    + cbn [flat_map] in Hfind. rewrite find_app in Hfind.
      rewrite parse_lines_data by assumption.
      pose proof (parse_fields_find (fields_of line) []) as Hf.
      destruct (find bad_field (fields_of line)); [discriminate|].
      destruct Hf as [vs ->]. cbn [bind app].
      destruct vs as [|v vs].
      * now apply IH.
      * destruct (IH (matrix ++ [v :: vs]) Hfind) as (rows & -> & Hne).
        exists ((v :: vs) :: rows). rewrite <- app_assoc.
        split; [reflexivity|]. constructor; [discriminate|assumption].
    + rewrite parse_lines_skip by assumption. now apply IH.
Qed.

(** X6: whatever [parse_matrix] returns is a square matrix without empty
    rows, and [traverse] accepts it: the composition never raises
    [IndexError] and yields [n * n] integers, a permutation of the parsed
    cells. *)
Theorem parse_then_traverse (text : string) (matrix : list (list Z)) :
  parse_matrix text = Ok matrix ->
  square matrix /\
  Forall (fun row => row <> []) matrix /\
  exists out,
    traverse matrix = Ok out /\
    length out = (length matrix * length matrix)%nat /\
    Permutation out (concat matrix).
Proof.
  intros H. pose proof (parse_matrix_square text matrix H) as Hsq.
  split; [exact Hsq|]. split.
  - pose proof (parse_lines_find (lines_of text) []) as Hf.
    destruct (find bad_field _) as [num|].
    + destruct Hf as (e & _ & Hf).
      unfold parse_matrix in H. fold (lines_of text) in H.
      rewrite Hf in H. discriminate.
    + destruct Hf as (rows & Hrows & Hne). cbn [app] in Hrows.
      rewrite (parse_matrix_rows text rows Hrows) in H.
      destruct (find _ rows); [discriminate|]. now injection H as <-.
  - destruct (traverse_square matrix Hsq) as (cells & Hv & Ht).
    pose proof (visited_grid _ _ Hv) as Hperm.
    exists (map (at_ matrix) cells). split; [exact Ht|]. split.
    + rewrite length_map, (Permutation_length Hperm). unfold grid.
      rewrite length_prod. unfold Py.range.
      rewrite length_map, length_seq. lia.
    + rewrite <- (map_at_grid matrix Hsq). now apply Permutation_map.
Qed.

Lemma parse_then_traverse_witness :
  parse_matrix ("| 1 | 2 |" ++ nl ++ "| 4 | 3 |")%string = Ok [[1; 2]; [4; 3]] /\
  square [[1; 2]; [4; 3]] /\
  Forall (fun row => row <> []) [[1; 2]; [4; 3]] /\
  exists out,
    traverse [[1; 2]; [4; 3]] = Ok out /\
    length out = (length [[1; 2]; [4; 3]] * length [[1; 2]; [4; 3]])%nat /\
    Permutation out (concat [[1; 2]; [4; 3]]).
Proof.
  assert (H : parse_matrix ("| 1 | 2 |" ++ nl ++ "| 4 | 3 |")%string
              = Ok [[1; 2]; [4; 3]]) by reflexivity.
  split; [exact H|].
  exact (parse_then_traverse _ _ H).
Defined.

(** X7: a line that, once trimmed, starts with [+] or holds no [|] is
    ignored wherever it stands and whatever else it holds (fields, even
    fields that are not integers): the line loop returns what it returns
    without that line, and the text parses like its other lines alone. *)
Theorem non_data_line_is_ignored (pre post : list string) (line : string) :
  Py.startswith "+" (Py.strip line) = true \/
  Py.contains "|" (Py.strip line) = false ->
  (forall matrix,
     parse_lines (pre ++ line :: post) matrix = parse_lines (pre ++ post) matrix) /\
  (forall text,
     lines_of text = pre ++ line :: post ->
     parse_matrix text = parse_matrix_lines (pre ++ post)).
Proof.
  intros Hline.
  assert (Hno : adds_no_row line = true).
  { unfold adds_no_row, is_data_line.
    destruct Hline as [-> | ->]; [reflexivity|].
    now rewrite andb_false_r. }
  split.
  - intros matrix. now apply parse_lines_drop_blank.
  - intros text Ht. unfold parse_matrix, parse_matrix_lines.
    fold (lines_of text). rewrite Ht.
    now rewrite parse_lines_drop_blank.
Qed.

Lemma non_data_line_is_ignored_witness :
  (Py.startswith "+" (Py.strip "+ 2 | x |") = true \/
   Py.contains "|" (Py.strip "+ 2 | x |") = false) /\
  lines_of ("| 1 |" ++ nl ++ "+ 2 | x |")%string
  = ["| 1 |"%string] ++ "+ 2 | x |"%string :: [] /\
  parse_matrix_lines (["| 1 |"%string] ++ []) = Ok [[1]] /\
  (forall matrix,
     parse_lines (["| 1 |"%string] ++ "+ 2 | x |"%string :: []) matrix
     = parse_lines (["| 1 |"%string] ++ []) matrix) /\
  (forall text,
     lines_of text = ["| 1 |"%string] ++ "+ 2 | x |"%string :: [] ->
     parse_matrix text = parse_matrix_lines (["| 1 |"%string] ++ [])).
Proof.
  assert (H : Py.startswith "+" (Py.strip "+ 2 | x |") = true \/
              Py.contains "|" (Py.strip "+ 2 | x |") = false)
    by (left; reflexivity).
  split; [exact H|]. split; [reflexivity|]. split; [reflexivity|].
  exact (non_data_line_is_ignored ["| 1 |"%string] [] "+ 2 | x |"%string H).
Defined.

(** X8: the rows that the line loop collects are, in line order, the data
    lines' integers - [int] of every field that is not empty after
    trimming, from left to right - without the rows that come out empty;
    the first failing [int] fails the loop. *)
Theorem parse_lines_declarative (text : string) :
  parse_lines (lines_of text) [] =
  fmap (filter nonempty) (mapM row_of (filter is_data_line (lines_of text))) /\
  forall matrix,
    parse_matrix text = Ok matrix ->
    exists rows,
      mapM row_of (filter is_data_line (lines_of text)) = Ok rows /\
      matrix = filter nonempty rows.
Proof.
  assert (E : parse_lines (lines_of text) [] =
              fmap (filter nonempty)
                   (mapM row_of (filter is_data_line (lines_of text))))
    by apply parse_lines_mapM.
  split; [exact E|]. intros matrix H.
  unfold fmap in E.
  destruct (mapM row_of _) as [e|rows]; cbn [bind] in E.
  - unfold parse_matrix in H. fold (lines_of text) in H.
    rewrite E in H. discriminate.
  - exists rows. split; [reflexivity|].
    rewrite (parse_matrix_rows text _ E) in H.
    destruct (find _ _); [discriminate|]. now injection H.
Qed.

(** X9: [parse_matrix] raises only [ValueError]s, never [IndexError].
    Either it is the error of [int] on the first rejected field - the
    invalid literal error showing the repr of the trimmed field cut to 200
    characters, or the digit limit error for more than 4300 digits - and
    this one wins over any width mismatch; or no field is rejected and it
    is the width error, which names an expected count [n >= 1] and an
    actual count [cols >= 1] different from [n]. *)
Theorem parse_matrix_errors (text : string) (e : exn) :
  parse_matrix text = Raise e ->
  (exists num, first_bad_field text = Some num /\
               (e = InvalidLiteral (Py.shown (Py.strip num)) \/
                e = TooManyDigits 4300 (Py.digit_count (Py.strip num)) /\
                (4300 < Py.digit_count (Py.strip num))%nat)) \/
  (exists n cols, first_bad_field text = None /\ e = NotSquare n cols /\
                  (1 <= n)%nat /\ (1 <= cols)%nat /\ cols <> n).
Proof.
  intros H. unfold first_bad_field.
  pose proof (parse_lines_find (lines_of text) []) as Hf.
  destruct (find bad_field _) as [num|].
  - left. exists num. split; [reflexivity|].
    destruct Hf as (e' & Hint & Hf).
    unfold parse_matrix in H. fold (lines_of text) in H.
    rewrite Hf in H. cbn [bind] in H. injection H as <-.
    exact (int_error _ _ Hint).
  - right. destruct Hf as (rows & Hrows & Hne). cbn [app] in Hrows.
    rewrite (parse_matrix_rows text rows Hrows) in H.
    destruct (find (wrong_width (length rows)) rows) as [row|] eqn:Hfind;
      [|discriminate].
    injection H as <-. apply find_some in Hfind as [Hin Hw].
    exists (length rows), (length row). split; [reflexivity|].
    split; [reflexivity|].
    rewrite Forall_forall in Hne. specialize (Hne row Hin).
    unfold wrong_width in Hw. apply negb_true_iff, Nat.eqb_neq in Hw.
    repeat split.
    + destruct rows; [destruct Hin|cbn; lia].
    + destruct row; [congruence|cbn; lia].
    + exact Hw.
Qed.

Lemma parse_matrix_errors_witness :
  parse_matrix ("|" ++ copies 4301 "1" ++ "| x |")%string
  = Raise (TooManyDigits 4300 4301) /\
  ((exists num,
      first_bad_field ("|" ++ copies 4301 "1" ++ "| x |")%string = Some num /\
      (TooManyDigits 4300 4301 = InvalidLiteral (Py.shown (Py.strip num)) \/
       TooManyDigits 4300 4301
       = TooManyDigits 4300 (Py.digit_count (Py.strip num)) /\
       (4300 < Py.digit_count (Py.strip num))%nat)) \/
   (exists n cols,
      first_bad_field ("|" ++ copies 4301 "1" ++ "| x |")%string = None /\
      TooManyDigits 4300 4301 = NotSquare n cols /\
      (1 <= n)%nat /\ (1 <= cols)%nat /\ cols <> n)).
Proof.
  assert (H : parse_matrix ("|" ++ copies 4301 "1" ++ "| x |")%string
              = Raise (TooManyDigits 4300 4301)) by (vm_compute; reflexivity).
  split; [exact H|].
  exact (parse_matrix_errors _ _ H).
Defined.

(** * Properties of the orchestration layer *)

Lemma parse_matrix_not_IndexError text e :
  parse_matrix text = Raise e -> exists msg, of_core e = ValueError msg.
Proof.
  intros H.
  destruct (parse_lines (lines_of text) []) as [e'|rows] eqn:Hrows.
  - unfold parse_matrix in H. fold (lines_of text) in H.
    rewrite Hrows in H. cbn [bind] in H. injection H as ->.
    apply parse_lines_error in Hrows as [s [-> | [-> _]]]; cbn; eauto.
  - rewrite (parse_matrix_rows text rows Hrows) in H.
    destruct (find _ _); [|discriminate]. injection H as <-. cbn. eauto.
Qed.

(** What [get_matrix] does with a response text, by what [parse_matrix]
    makes of it. *)
Lemma get_matrix_text text :
  match parse_matrix text with
  | inl e =>
      get_matrix (inr text) = inl (ValueError (ParsingError (CoreMessage e)))
  | inr [] => get_matrix (inr text) = inl (ValueError (ParsingError EmptyMatrix))
  | inr (row :: rows) =>
      exists out, traverse (row :: rows) = Ok out /\
                  get_matrix (inr text) = inr out /\ out <> []
  end.
Proof.
  unfold get_matrix, fetch_matrix.
  destruct (parse_matrix text) as [e|[|row rows]] eqn:Hp.
  - destruct (parse_matrix_not_IndexError text e Hp) as [msg Hmsg].
    rewrite Hmsg. destruct e; cbn in Hmsg; try discriminate;
      injection Hmsg as <-; reflexivity.
  - reflexivity.
  - pose proof (parse_matrix_square text _ Hp) as Hsq.
    destruct (traverse_square _ Hsq) as (cells & Hv & Ht).
    exists (map (at_ (row :: rows)) cells). split; [exact Ht|].
    rewrite Ht. split; [reflexivity|].
    destruct (visited_spec (length (row :: rows))) as (cells' & Hv' & _ & Hin & _).
    assert (cells' = cells) by congruence. subst cells'.
    assert (H0 : In (0, 0) cells) by (apply Hin; cbn [length]; lia).
    destruct cells; [destruct H0|discriminate].
Qed.




(** X12: whatever leaves a call of [get_matrix] is one of these: what
    entering or leaving the client context raised, or an exception of the
    request that is not derived from [Exception], each unconverted; a
    [ConnectionError], which always stems from an exception of the request
    and never from a response text; or a [ValueError] under the
    parsing-error prefix. *)
Theorem get_matrix_raises
  (entered : option raised) (got : raised + string) (closing : option raised)
  (r : raised) :
  get_matrix_call entered got closing = inl r ->
  entered = Some r \/
  closing = Some r \/
  (exists msg, r = RaisedBase msg /\ got = inl r) \/
  (exists msg e0, r = Raised (ConnectionError msg) /\ got = inl (Raised e0)) \/
  (exists inner, r = Raised (ValueError (ParsingError inner))).
Proof.
  unfold get_matrix_call.
  destruct entered as [r0|]; [intros [= <-]; now left|].
  destruct closing as [r1|]; [intros [= <-]; right; now left|].
  destruct got as [[e0|msg]|text].
  - unfold get_matrix, fetch_matrix.
    destruct e0; cbn; intros [= <-]; eauto 10.
  - intros [= <-]. right; right; left. eauto.
  - pose proof (get_matrix_text text) as H.
    destruct (parse_matrix text) as [e'|[|row rows]].
    + rewrite H. intros [= <-]. eauto 10.
    + rewrite H. intros [= <-]. eauto 10.
    + destruct H as (out & _ & -> & _). discriminate.
Qed.

Lemma get_matrix_raises_witness :
  get_matrix_call None (inl (Raised (HTTPStatusError 404 (External "Not Found"))))
                  None
  = inl (Raised (ConnectionError (ServerError 404))) /\
  (@None raised = Some (Raised (ConnectionError (ServerError 404))) \/
   @None raised = Some (Raised (ConnectionError (ServerError 404))) \/
   (exists msg,
      Raised (ConnectionError (ServerError 404)) = RaisedBase msg /\
      @inl raised string (Raised (HTTPStatusError 404 (External "Not Found")))
      = inl (Raised (ConnectionError (ServerError 404)))) \/
   (exists msg e0,
      Raised (ConnectionError (ServerError 404)) = Raised (ConnectionError msg) /\
      @inl raised string (Raised (HTTPStatusError 404 (External "Not Found")))
      = inl (Raised e0)) \/
   (exists inner,
      Raised (ConnectionError (ServerError 404))
      = Raised (ValueError (ParsingError inner)))).
Proof.
  assert (H : get_matrix_call None
                (inl (Raised (HTTPStatusError 404 (External "Not Found")))) None
              = inl (Raised (ConnectionError (ServerError 404)))) by reflexivity.
  split; [exact H|].
  exact (get_matrix_raises _ _ _ _ H).
Defined.

